(** * ChiselPDF: the page-range parser and the page extractor of [main.py]

    A shallow embedding of [parse_page_ranges] and [trim_pdf].  Python
    strings are [string]s, one [ascii] per code point (code points below
    256); Python integers are [Z]; the [set] that the parser accumulates
    is a [gset Z]; a raised exception is the [Raise] branch of [result];
    the file system that [trim_pdf] reads and writes is a [gmap] from
    paths to files, threaded through a small state-and-exception monad. *)

From Stdlib Require Import ZArith Ascii DecimalString.
From stdpp Require Import base tactics option list list_numbers sorting
  strings gmap.

Local Open Scope Z_scope.
#[local] Set Warnings "-clear-no-such-hyp".

(** ** Exceptions *)

(** A call either returns a value or raises an exception [e]. *)
Inductive result (E A : Type) : Type :=
| Ok (a : A)
| Raise (e : E).
Arguments Ok {E A} a.
Arguments Raise {E A} e.

Definition bind_result {E A B} (r : result E A) (k : A → result E B)
  : result E B :=
  match r with
  | Ok a => k a
  | Raise e => Raise e
  end.

(** ** Python string operations used by the source *)

Module Str.

Definition space : ascii := "032"%char.
Definition tab : ascii := "009"%char.
Definition comma : ascii := ","%char.
Definition hyphen : ascii := "-"%char.
Definition plus : ascii := "+"%char.
Definition underscore : ascii := "_"%char.

(** [s.replace(c, "")] for a one-character [c]. *)
Fixpoint remove (c : ascii) (s : string) : string :=
  match s with
  | EmptyString => EmptyString
  | String a s' =>
      if Ascii.eqb a c then remove c s' else String a (remove c s')
  end.

(** [s.split(sep)] for a one-character [sep]: the pieces between the
    occurrences of [sep], empty pieces included; never the empty list. *)
Fixpoint split (sep : ascii) (s : string) : list string :=
  match s with
  | EmptyString => [EmptyString]
  | String a s' =>
      if Ascii.eqb a sep then EmptyString :: split sep s'
      else match split sep s' with
           | [] => [String a EmptyString]
           | p :: ps => String a p :: ps
           end
  end.

(** [c in s]. *)
Fixpoint contains (c : ascii) (s : string) : bool :=
  match s with
  | EmptyString => false
  | String a s' => Ascii.eqb a c || contains c s'
  end.

(** [s.split(sep, 1)] when [sep in s]: what is before the first [sep]
    and what is after it; [None] when [sep] does not occur. *)
Fixpoint split_first (sep : ascii) (s : string) : option (string * string) :=
  match s with
  | EmptyString => None
  | String a s' =>
      if Ascii.eqb a sep then Some (EmptyString, s')
      else match split_first sep s' with
           | Some (before, after) => Some (String a before, after)
           | None => None
           end
  end.

(** The number of occurrences of [c] in [s]: [s.count(c)]. *)
Fixpoint count (c : ascii) (s : string) : nat :=
  match s with
  | EmptyString => O
  | String a s' => ((if Ascii.eqb a c then 1 else 0) + count c s')%nat
  end.

(** [str(n)] for an integer [n]. *)
Definition of_Z (n : Z) : string := NilZero.string_of_int (Z.to_int n).

(** [", ".join(l)]. *)
Fixpoint join_comma (l : list string) : string :=
  match l with
  | [] => ""
  | [s] => s
  | s :: l' => s +:+ ", " +:+ join_comma l'
  end.

(** [str(l)] for a list of integers: ["[1, 2, 3]"]. *)
Definition of_list_Z (l : list Z) : string :=
  "[" +:+ join_comma (of_Z <$> l) +:+ "]".

End Str.

(** ** Python's [int(s)] on a string

    The literal grammar of the interpreter in base 10: optional
    whitespace, an optional sign, decimal digits with single underscores
    between them, optional whitespace.  [None] stands for the
    [ValueError] that [int] raises.  Whitespace is what the interpreter
    strips here among the code points below 256: tab, line feed,
    vertical tab, form feed, carriage return, space, next line (133) and
    no-break space (160).  The interpreter's configurable cap on the
    number of digits is not part of the model. *)

Module PyInt.

Definition is_space (c : ascii) : bool :=
  let n := nat_of_ascii c in
  ((9 <=? n) && (n <=? 13) || (n =? 32) || (n =? 133) || (n =? 160))%nat.

Definition is_digit (c : ascii) : bool :=
  let n := nat_of_ascii c in ((48 <=? n) && (n <=? 57))%nat.

Definition digit_value (c : ascii) : Z := Z.of_nat (nat_of_ascii c) - 48.

Fixpoint lstrip (s : string) : string :=
  match s with
  | EmptyString => EmptyString
  | String c s' => if is_space c then lstrip s' else s
  end.

Fixpoint all_space (s : string) : bool :=
  match s with
  | EmptyString => true
  | String c s' => is_space c && all_space s'
  end.

(** The digit loop: [prev_us] records that the previous character was
    an underscore; two underscores in a row and a trailing underscore
    are errors.  Returns the value read and the unread rest. *)
Fixpoint scan (prev_us : bool) (acc : Z) (s : string)
  : option (Z * string) :=
  match s with
  | EmptyString => if prev_us then None else Some (acc, EmptyString)
  | String c s' =>
      if is_digit c then scan false (10 * acc + digit_value c) s'
      else if Ascii.eqb c Str.underscore then
        if prev_us then None else scan true acc s'
      else if prev_us then None else Some (acc, s)
  end.

(** After the sign the literal starts with a digit (a leading
    underscore and an empty digit string are both errors), and only
    whitespace may follow the digits. *)
Definition unsigned (s : string) : option Z :=
  match s with
  | EmptyString => None
  | String c _ =>
      if is_digit c then
        match scan false 0 s with
        | Some (n, rest) => if all_space rest then Some n else None
        | None => None
        end
      else None
  end.

Definition int (s : string) : option Z :=
  match lstrip s with
  | String c s' =>
      if Ascii.eqb c Str.plus then unsigned s'
      else if Ascii.eqb c Str.hyphen then Z.opp <$> unsigned s'
      else unsigned (String c s')
  | EmptyString => None
  end.

(** A character that is neither whitespace, a digit nor an underscore:
    no literal holds it, except the hyphen as a sign. *)
Definition foreign (h : ascii) : Prop :=
  is_space h = false ∧ is_digit h = false
  ∧ Ascii.eqb Str.underscore h = false.

End PyInt.

(** ** [parse_page_ranges] *)

(** What the [ValueError] caught at line 40 was: the one [int] raised on
    the text [s], or the one of line 38 on the token [part]. *)
Inductive range_cause : Type :=
| InvalidLiteral (s : string)
| StartAfterEnd (part : string).

(** The [ValueError]s that leave [parse_page_ranges], each with the
    token [part] that its message quotes: line 41,
    [f"Invalid range format '{part}': {e}"], and line 47,
    [f"Invalid page number '{part}'"]. *)
Inductive ValueError : Type :=
| InvalidRangeFormat (part : string) (e : range_cause)
| InvalidPageNumber (part : string).

Definition offending_token (e : ValueError) : string :=
  match e with
  | InvalidRangeFormat part _ => part
  | InvalidPageNumber part => part
  end.

(** [range(start, stop)]. *)
Definition range (start stop : Z) : list Z := seqZ start (stop - start).

(** [sorted(pages)] for a set of integers. *)
Definition sorted (pages : gset Z) : list Z :=
  merge_sort Z.le (elements pages).

(** The body of the [for] loop (lines 29 to 47) on one [part], from the
    set accumulated so far to the set after it. *)
Definition parse_part (part : string) (pages : gset Z)
  : result ValueError (gset Z) :=
  match part with
  | EmptyString => Ok pages
  | _ =>
      match Str.split_first Str.hyphen part with
      | Some (start, end_) =>
          match PyInt.int start with
          | None => Raise (InvalidRangeFormat part (InvalidLiteral start))
          | Some start_page =>
              match PyInt.int end_ with
              | None => Raise (InvalidRangeFormat part (InvalidLiteral end_))
              | Some end_page =>
                  if start_page >? end_page
                  then Raise (InvalidRangeFormat part (StartAfterEnd part))
                  else Ok (pages ∪ list_to_set (range start_page (end_page + 1)))
              end
          end
      | None =>
          match PyInt.int part with
          | None => Raise (InvalidPageNumber part)
          | Some n => Ok (pages ∪ {[ n ]})
          end
      end
  end.

(** The [for] loop: the first exception ends it. *)
Fixpoint parse_parts (parts : list string) (pages : gset Z)
  : result ValueError (gset Z) :=
  match parts with
  | [] => Ok pages
  | part :: parts' =>
      bind_result (parse_part part pages) (parse_parts parts')
  end.

(** The tokens of line 26: [page_input.replace(" ", "").split(",")]. *)
Definition parts_of (page_input : string) : list string :=
  Str.split Str.comma (Str.remove Str.space page_input).

Definition parse_page_ranges (page_input : string)
  : result ValueError (list Z) :=
  bind_result (parse_parts (parts_of page_input) ∅)
              (λ pages, Ok (sorted pages)).

(** ** [trim_pdf] *)

(** The state is the file system; a computation returns the new state
    and either a value or the text [str(e)] of the exception raised. *)
Section Extractor.

Variable Page : Type.

(** A page object of a document either loads or makes the reader
    raise.  A file that is not a readable PDF makes [PdfReader] raise
    [e]. *)
Inductive file : Type :=
| PdfFile (pages : list (result string Page))
| NotPdf (e : string).

(** The file system: the files by path, the paths that
    [open(path, "wb")] refuses with the text of the error, and the
    error, if any, that interrupts writing a document, with what the
    interrupted write leaves in the file. *)
Record world : Type := World {
  files : gmap string file;
  open_error : string → option string;
  write_error : option (string * file);
}.

Definition M (A : Type) : Type := world → world * result string A.

Definition ret {A} (a : A) : M A := λ w, (w, Ok a).

Definition bind {A B} (m : M A) (k : A → M B) : M B :=
  λ w, match m w with
       | (w', Ok a) => k a w'
       | (w', Raise e) => (w', Raise e)
       end.

Definition lift {A} (r : result string A) : M A := λ w, (w, r).

Notation "x <- m ;; k" := (bind m (λ x, k))
  (at level 100, m at next level, k at level 200).

Definition set_file (path : string) (f : file) (w : world) : world :=
  World (<[path := f]> (files w)) (open_error w) (write_error w).

(** [PdfReader(path)] with [reader.pages]: the document is read into
    memory when the reader is made.  A missing file raises
    [FileNotFoundError], whose text quotes the path. *)
Definition PdfReader (path : string) : M (list (result string Page)) :=
  λ w, match files w !! path with
       | Some (PdfFile pages) => (w, Ok pages)
       | Some (NotPdf e) => (w, Raise e)
       | None =>
           (w, Raise ("[Errno 2] No such file or directory: '"
                      +:+ path +:+ "'"))
       end.

(** [reader.pages[i]] for an index [0 <= i]. *)
Definition get_page (reader : list (result string Page)) (i : Z)
  : result string Page :=
  match reader !! Z.to_nat i with
  | Some page => page
  | None => Raise "sequence index out of range"
  end.

(** [open(path, "wb")]: the file is created or truncated. *)
Definition open_wb (path : string) : M unit :=
  λ w, match open_error w path with
       | Some e => (w, Raise e)
       | None => (set_file path (NotPdf "Cannot read an empty file") w, Ok ())
       end.

(** [writer.write(output_file)] on the file opened at [path]: a write
    that is interrupted leaves a partly written file. *)
Definition write (path : string) (writer : list Page) : M unit :=
  λ w, match write_error w with
       | Some (e, partial) => (set_file path partial w, Raise e)
       | None => (set_file path (PdfFile (Ok <$> writer)) w, Ok ())
       end.

(** The locals that the loop of lines 73 to 79 updates: the pages
    added to [writer], [valid_pages] and [invalid_pages]. *)
Definition locals : Type := list Page * list Z * list Z.

Fixpoint add_pages (reader : list (result string Page)) (total_pages : Z)
    (page_numbers : list Z) (st : locals) : result string locals :=
  match page_numbers with
  | [] => Ok st
  | page_num :: rest =>
      let '(writer, valid_pages, invalid_pages) := st in
      if decide (1 ≤ page_num ≤ total_pages) then
        bind_result (get_page reader (page_num - 1)) (λ page,
          add_pages reader total_pages rest
            (writer ++ [page], valid_pages ++ [page_num], invalid_pages))
      else
        add_pages reader total_pages rest
          (writer, valid_pages, invalid_pages ++ [page_num])
  end.

Definition newline : string := String "010"%char EmptyString.

(** The message of lines 88 to 90. *)
Definition created_message (valid_pages invalid_pages : list Z)
    (total_pages : Z) : string :=
  let message :=
    "Successfully created PDF with "
    +:+ Str.of_Z (Z.of_nat (length valid_pages)) +:+ " pages" in
  match invalid_pages with
  | [] => message
  | _ :: _ =>
      message +:+ newline +:+ newline +:+ "Skipped invalid pages: "
      +:+ Str.of_list_Z invalid_pages +:+ " (PDF has "
      +:+ Str.of_Z total_pages +:+ " pages)"
  end.

(** The body of the [try] (lines 65 to 92). *)
Definition trim_pdf_try (input_path : string) (page_numbers : list Z)
    (output_path : string) : M (bool * string * list Z) :=
  reader <- PdfReader input_path ;;
  let total_pages := Z.of_nat (length reader) in
  st <- lift (add_pages reader total_pages page_numbers ([], [], [])) ;;
  let '(writer, valid_pages, invalid_pages) := st in
  match valid_pages with
  | [] => ret (false, "No valid pages to include in the output PDF.", [])
  | _ :: _ =>
      _ <- open_wb output_path ;;
      _ <- write output_path writer ;;
      ret (true, created_message valid_pages invalid_pages total_pages,
           valid_pages)
  end.

(** [trim_pdf]: the handler of line 94 turns every exception into a
    returned tuple. *)
Definition trim_pdf (input_path : string) (page_numbers : list Z)
    (output_path : string) (w : world) : world * (bool * string * list Z) :=
  match trim_pdf_try input_path page_numbers output_path w with
  | (w', Ok r) => (w', r)
  | (w', Raise e) => (w', (false, "Error processing PDF: " +:+ e, []))
  end.

End Extractor.

Arguments PdfFile {Page} pages.
Arguments NotPdf {Page} e.
Arguments World {Page} files open_error write_error.
Arguments files {Page} w.
Arguments open_error {Page} w path.
Arguments write_error {Page} w.
Arguments set_file {Page} path f w.
Arguments PdfReader {Page} path w.
Arguments get_page {Page} reader i.
Arguments open_wb {Page} path w.
Arguments write {Page} path writer w.
Arguments add_pages {Page} reader total_pages page_numbers st.
Arguments trim_pdf_try {Page} input_path page_numbers output_path w.
Arguments trim_pdf {Page} input_path page_numbers output_path w.

(** ** The page-range syntax

    The tokens that the parser accepts and the integers they stand for,
    stated apart from the loop that reads them.  A token without a
    hyphen is an integer literal; a token with a hyphen is cut at its
    first hyphen into two integer literals [start <= end] and stands for
    every integer from [start] to [end]. *)

Definition valid_token (part : string) : bool :=
  match Str.split_first Str.hyphen part with
  | Some (start, end_) =>
      match PyInt.int start, PyInt.int end_ with
      | Some a, Some b => a <=? b
      | _, _ => false
      end
  | None =>
      match PyInt.int part with
      | Some _ => true
      | None => false
      end
  end.

Definition denotes (part : string) (n : Z) : Prop :=
  match Str.split_first Str.hyphen part with
  | Some (start, end_) =>
      ∃ a b, PyInt.int start = Some a ∧ PyInt.int end_ = Some b ∧ a ≤ n ≤ b
  | None => PyInt.int part = Some n
  end.

(** A token that does not stop the loop: the empty one, which line 30
    skips, or a valid one. *)
Definition acceptable (part : string) : Prop :=
  part = EmptyString ∨ valid_token part = true.

(** [c.isspace()] on the code points below 256, and the deletion of
    every such character from a string. *)
Definition isspace (c : ascii) : bool :=
  let n := nat_of_ascii c in
  ((9 <=? n) && (n <=? 13) || (28 <=? n) && (n <=? 32)
   || (n =? 133) || (n =? 160))%nat.

Fixpoint delete_whitespace (s : string) : string :=
  match s with
  | EmptyString => EmptyString
  | String c s' =>
      if isspace c then delete_whitespace s'
      else String c (delete_whitespace s')
  end.

(** ** Integer literals beyond plain digits

    A literal of the extended syntax: whitespace other than the space
    (tab, line feed, vertical tab, form feed, carriage return), an
    optional plus sign, groups of decimal digits separated by single
    underscores, and such whitespace again.  Its value is the number
    that the digits write in base ten. *)
Fixpoint all_chars (P : ascii → bool) (s : string) : bool :=
  match s with
  | EmptyString => true
  | String c s' => P c && all_chars P s'
  end.

Definition is_other_whitespace (c : ascii) : bool :=
  Str.contains c
    (String "009" (String "010" (String "011" (String "012"
       (String "013" EmptyString))))).

Definition is_decimal_digit (c : ascii) : bool :=
  Str.contains c "0123456789".

Definition digit_group (g : string) : bool :=
  match g with
  | EmptyString => false
  | String _ _ => all_chars is_decimal_digit g
  end.

Definition digit_of (c : ascii) : Z :=
  match c with
  | "0" => 0 | "1" => 1 | "2" => 2 | "3" => 3 | "4" => 4
  | "5" => 5 | "6" => 6 | "7" => 7 | "8" => 8 | "9" => 9
  | _ => 0
  end%char.

Fixpoint decimal_from (acc : Z) (digits : string) : Z :=
  match digits with
  | EmptyString => acc
  | String c digits' => decimal_from (10 * acc + digit_of c) digits'
  end.

Definition decimal (digits : string) : Z := decimal_from 0 digits.

Definition extended_literal (before sign : string) (groups : list string)
    (after : string) : string :=
  before +:+ sign +:+ String.concat "_" groups +:+ after.

(** The ways a token can be refused.  The last one covers the tokens
    with two hyphens or more, except those that read as the range from
    zero to minus zero. *)
Definition zero_to_zero (part : string) : Prop :=
  ∃ start end_,
    Str.split_first Str.hyphen part = Some (start, end_)
    ∧ PyInt.int start = Some 0 ∧ PyInt.int end_ = Some 0.

Inductive malformed (part : string) : Prop :=
| not_an_integer :
    Str.contains Str.hyphen part = false → PyInt.int part = None →
    malformed part
| bound_not_an_integer start end_ :
    Str.split_first Str.hyphen part = Some (start, end_) →
    PyInt.int start = None ∨ PyInt.int end_ = None →
    malformed part
| start_after_end start end_ a b :
    Str.split_first Str.hyphen part = Some (start, end_) →
    PyInt.int start = Some a → PyInt.int end_ = Some b → b < a →
    malformed part
| several_hyphens :
    (2 ≤ Str.count Str.hyphen part)%nat → ¬ zero_to_zero part →
    malformed part.

(** The exception that the loop raises on a token: line 47 for a token
    without a hyphen that is not an integer literal; line 41 for a
    token with a hyphen, caused by the first of the texts before and
    after its first hyphen that is not an integer literal or, when both
    are, by a start above the end (line 38). *)
Inductive raised_on (part : string) : ValueError → Prop :=
| raised_page_number :
    Str.contains Str.hyphen part = false → PyInt.int part = None →
    raised_on part (InvalidPageNumber part)
| raised_start start end_ :
    Str.split_first Str.hyphen part = Some (start, end_) →
    PyInt.int start = None →
    raised_on part (InvalidRangeFormat part (InvalidLiteral start))
| raised_end start end_ a :
    Str.split_first Str.hyphen part = Some (start, end_) →
    PyInt.int start = Some a → PyInt.int end_ = None →
    raised_on part (InvalidRangeFormat part (InvalidLiteral end_))
| raised_order start end_ a b :
    Str.split_first Str.hyphen part = Some (start, end_) →
    PyInt.int start = Some a → PyInt.int end_ = Some b → b < a →
    raised_on part (InvalidRangeFormat part (StartAfterEnd part)).

(** ** The partition of the requested pages

    The requested numbers within the bounds of a document of [N] pages,
    and the others, each in the order of the request. *)
Definition included (N : Z) (S : list Z) : list Z :=
  filter (λ p, 1 ≤ p ≤ N) S.

Definition skipped (N : Z) (S : list Z) : list Z :=
  filter (λ p, ¬ 1 ≤ p ≤ N) S.

(** ** Sample file systems *)

Definition five_pages : list (result string string) :=
  [Ok "a"; Ok "b"; Ok "c"; Ok "d"; Ok "e"].

(** Every file can be written. *)
Definition sample_world : world string :=
  World {[ "in.pdf" := PdfFile five_pages ]} (λ _, None) None.

(** No file can be opened for writing. *)
Definition read_only_world : world string :=
  World {[ "in.pdf" := PdfFile five_pages ]}
        (λ path, Some ("[Errno 13] Permission denied: '" +:+ path +:+ "'"))
        None.

(** Files open for writing, and the device is full: a write stops and
    leaves a file without its end. *)
Definition full_disk_world : world string :=
  World {[ "in.pdf" := PdfFile five_pages ]} (λ _, None)
        (Some ("[Errno 28] No space left on device",
               NotPdf "EOF marker not found")).

(** ** The window: [PDFPageSelectorApp]

    The attributes of the window and the widgets its handlers write to
    are the fields of a record; a handler is a function on this record
    and the file system.  What a dialog returns (the file chosen, the
    answer to a question) is an argument of the handler, and the message
    boxes shown are logged in order. *)

Module Gui.

(** [s.strip()]: the characters for which [isspace] holds are removed
    from both ends. *)
Fixpoint lstrip (s : string) : string :=
  match s with
  | EmptyString => EmptyString
  | String c s' => if isspace c then lstrip s' else s
  end.

Fixpoint rstrip (s : string) : string :=
  match s with
  | EmptyString => EmptyString
  | String c s' =>
      match rstrip s' with
      | EmptyString => if isspace c then EmptyString else String c EmptyString
      | r => String c r
      end
  end.

Definition strip (s : string) : string := rstrip (lstrip s).

Fixpoint drop_chars (n : nat) (s : string) : string :=
  match n, s with
  | O, _ => s
  | S n', String _ s' => drop_chars n' s'
  | S _, EmptyString => EmptyString
  end.

(** [s[-k:]] for [0 < k]: the last [k] characters, all of [s] when it
    has fewer. *)
Definition last_chars (k : nat) (s : string) : string :=
  drop_chars (String.length s - k) s.

(** Lines 269, 284 and 315:
    [name if len(name) < 80 else "..." + name[-77:]]. *)
Definition display_name (name : string) : string :=
  if (String.length name <? 80)%nat then name
  else "..." +:+ last_chars 77 name.

(** What [pathlib] computes for line 281 and the text of the exceptions
    that the interpreter and the PDF library raise where the source has
    no text of its own: [Path(p).stem], [Path(p).suffix],
    [str(Path(p).parent / name)], [str(e)] for the [ValueError] of
    [int(s)], and [str(e)] for [PdfReader(None)] and
    [open(None, "wb")]. *)
Record platform : Type := Platform {
  path_stem : string → string;
  path_suffix : string → string;
  path_sibling : string → string → string;
  int_error_text : string → string;
  reader_none_error : string;
  open_none_error : string;
}.

(** A [QLabel]: its text and its style sheet. *)
Record label : Type := Label {
  text : string;
  style : string;
}.

(** A [QMessageBox] shown: its kind, title and text. *)
Inductive dialog : Type :=
| Warning (title body : string)
| Critical (title body : string)
| Information (title body : string)
| Question (title body : string).

Record app : Type := App {
  input_path : option string;
  output_path : option string;
  total_pages : Z;
  input_label : label;
  page_info_label : label;
  output_label : label;
  status_label : label;
  process_button : bool;
  dialogs : list dialog;
}.

(** The window after [__init__] and [init_ui]. *)
Definition init : app :=
  App None None 0
      (Label "No file selected" "color: #888888; padding: 5px;")
      (Label "" "color: #aaaaaa; font-size: 10pt;")
      (Label "No output location selected" "color: #888888; padding: 5px;")
      (Label "" "")
      false
      [].

(** Truth value of [self.input_path] and the like: set and not empty. *)
Definition truthy (o : option string) : bool :=
  match o with
  | Some (String _ _) => true
  | _ => false
  end.

Definition show (d : dialog) (a : app) : app :=
  App (input_path a) (output_path a) (total_pages a) (input_label a)
      (page_info_label a) (output_label a) (status_label a)
      (process_button a) (dialogs a ++ [d]).

Definition set_status (l : label) (a : app) : app :=
  App (input_path a) (output_path a) (total_pages a) (input_label a)
      (page_info_label a) (output_label a) l
      (process_button a) (dialogs a).

(** [update_process_button] (lines 320 to 324). *)
Definition update_process_button (a : app) : app :=
  App (input_path a) (output_path a) (total_pages a) (input_label a)
      (page_info_label a) (output_label a) (status_label a)
      (truthy (input_path a) && truthy (output_path a)) (dialogs a).

(** [str(e)] for the exceptions of [parse_page_ranges]: the messages of
    lines 38, 41 and 47. *)
Definition str_range_cause (pf : platform) (c : range_cause) : string :=
  match c with
  | InvalidLiteral s => int_error_text pf s
  | StartAfterEnd part => "Invalid range " +:+ part +:+ " (start > end)"
  end.

Definition str_ValueError (pf : platform) (e : ValueError) : string :=
  match e with
  | InvalidRangeFormat part c =>
      "Invalid range format '" +:+ part +:+ "': " +:+ str_range_cause pf c
  | InvalidPageNumber part => "Invalid page number '" +:+ part +:+ "'"
  end.

(** [f"{path}"] for an attribute that may be [None]. *)
Definition str_path (o : option string) : string :=
  match o with
  | Some p => p
  | None => "None"
  end.

Section Handlers.

Variable Page : Type.
Variable pf : platform.

(** [trim_pdf] as the window calls it, with attributes that may be
    [None]: [PdfReader(None)] and [open(None, "wb")] raise. *)
Definition trim_pdf_try_paths (input_path : option string)
    (page_numbers : list Z) (output_path : option string)
  : M Page (bool * string * list Z) :=
  bind Page
    (match input_path with
     | Some p => PdfReader p
     | None => lift Page (Raise (reader_none_error pf))
     end)
    (λ reader,
      let total_pages := Z.of_nat (length reader) in
      bind Page
        (lift Page (add_pages reader total_pages page_numbers ([], [], [])))
        (λ st,
          let '(writer, valid_pages, invalid_pages) := st in
          match valid_pages with
          | [] =>
              ret Page
                (false, "No valid pages to include in the output PDF.", [])
          | _ :: _ =>
              match output_path with
              | Some p =>
                  bind Page (open_wb p) (λ _,
                    bind Page (write p writer) (λ _,
                      ret Page
                        (true,
                         created_message valid_pages invalid_pages
                           total_pages,
                         valid_pages)))
              | None => lift Page (Raise (open_none_error pf))
              end
          end)).

Definition trim_pdf_paths (input_path : option string)
    (page_numbers : list Z) (output_path : option string) (w : world Page)
  : world Page * (bool * string * list Z) :=
  match trim_pdf_try_paths input_path page_numbers output_path w with
  | (w', Ok r) => (w', r)
  | (w', Raise e) => (w', (false, "Error processing PDF: " +:+ e, []))
  end.

(** Line 281: [input_file.parent / f"{stem}_trimmed{suffix}"]. *)
Definition default_output (filename : string) : string :=
  path_sibling pf filename
    (path_stem pf filename +:+ "_trimmed" +:+ path_suffix pf filename).

(** [browse_input] (lines 259 to 295); [filename] is what the file
    dialog returns, empty when it is cancelled. *)
Definition browse_input (filename : string) (a : app) (w : world Page)
  : app :=
  match filename with
  | EmptyString => a
  | _ =>
      let shown :=
        Label (display_name filename) "color: #ffffff; padding: 5px;" in
      match PdfReader filename w with
      | (_, Ok reader) =>
          let n := Z.of_nat (length reader) in
          update_process_button
            (App (Some filename) (Some (default_output filename)) n
                 shown
                 (Label ("Total pages: " +:+ Str.of_Z n)
                        (style (page_info_label a)))
                 (Label (display_name (default_output filename))
                        "color: #ffffff; padding: 5px;")
                 (status_label a) (process_button a) (dialogs a))
      | (_, Raise e) =>
          App None (output_path a) 0
              (Label "No file selected" "color: #888888; padding: 5px;")
              (Label "" (style (page_info_label a)))
              (output_label a) (status_label a) (process_button a)
              (dialogs a ++ [Critical "Error" ("Could not read PDF: " +:+ e)])
      end
  end.

(** [browse_output] (lines 297 to 318); [filename] is what the save
    dialog returns.  The name and directory that lines 298 to 304
    compute only preset the dialog. *)
Definition browse_output (filename : string) (a : app) : app :=
  match filename with
  | EmptyString => a
  | _ =>
      update_process_button
        (App (input_path a) (Some filename) (total_pages a) (input_label a)
             (page_info_label a)
             (Label (display_name filename) "color: #ffffff; padding: 5px;")
             (status_label a) (process_button a) (dialogs a))
  end.

(** [os.path.exists(path)]. *)
Definition path_exists (path : string) (w : world Page) : bool :=
  bool_decide (is_Some (files w !! path)).

(** The test of line 343. *)
Definition must_confirm (a : app) (w : world Page) : bool :=
  match output_path a with
  | Some p => truthy (Some p) && path_exists p w
  | None => false
  end.

(** [process_pdf] (lines 326 to 368); [page_entry] is the text of the
    entry and [overwrite] the answer to the question of line 344, when
    it is asked. *)
Definition process_pdf (page_entry : string) (overwrite : bool)
    (a : app) (w : world Page) : app * world Page :=
  let page_input := strip page_entry in
  match page_input with
  | EmptyString => (show (Warning "Error" "Please enter page ranges.") a, w)
  | _ =>
      match parse_page_ranges page_input with
      | Raise e =>
          (show (Warning "Error"
                   ("Invalid page format:" +:+ newline +:+ str_ValueError pf e))
                a, w)
      | Ok [] => (show (Warning "Error" "No valid page numbers found.") a, w)
      | Ok page_numbers =>
          let asked :=
            if must_confirm a w then
              show (Question "Confirm Overwrite"
                      ("File already exists:" +:+ newline
                       +:+ str_path (output_path a) +:+ newline +:+ newline
                       +:+ "Overwrite?")) a
            else a in
          if must_confirm a w && negb overwrite then (asked, w)
          else
            let busy :=
              set_status (Label "Processing..." "color: #aaaaaa;") asked in
            let '(w', (success, message, valid_pages)) :=
              trim_pdf_paths (input_path a) page_numbers (output_path a) w in
            if success then
              (show (Information "Success" message)
                 (set_status
                    (Label ("Success! Saved to: " +:+ str_path (output_path a))
                           "color: #4caf50;") busy), w')
            else
              (show (Critical "Error" message)
                 (set_status (Label "Failed" "color: #f44336;") busy), w')
      end
  end.

(** What the user does: picks an input file, picks an output file, or
    clicks the process button, which reacts only while it is enabled. *)
Inductive event : Type :=
| BrowseInput (filename : string)
| BrowseOutput (filename : string)
| ClickProcess (page_entry : string) (overwrite : bool).

Definition handle (e : event) (st : app * world Page) : app * world Page :=
  let '(a, w) := st in
  match e with
  | BrowseInput filename => (browse_input filename a w, w)
  | BrowseOutput filename => (browse_output filename a, w)
  | ClickProcess page_entry overwrite =>
      if process_button a then process_pdf page_entry overwrite a w
      else (a, w)
  end.

Definition run (events : list event) (st : app * world Page)
  : app * world Page :=
  foldl (λ st e, handle e st) st events.

End Handlers.

Arguments trim_pdf_try_paths {Page} pf input_path page_numbers output_path w.
Arguments trim_pdf_paths {Page} pf input_path page_numbers output_path w.
Arguments browse_input {Page} pf filename a w.
Arguments path_exists {Page} path w.
Arguments must_confirm {Page} a w.
Arguments process_pdf {Page} pf page_entry overwrite a w.
Arguments handle {Page} pf e st.
Arguments run {Page} pf events st.

(** What the handlers keep true of the window. *)
Record consistent (a : app) : Prop := Consistent {
  input_set : ∀ p, input_path a = Some p → p ≠ EmptyString;
  ready_enabled :
    truthy (input_path a) = true → truthy (output_path a) = true →
    process_button a = true;
  enabled_output : process_button a = true → truthy (output_path a) = true;
  pages_known :
    0 ≤ total_pages a
    ∧ (input_path a = None → total_pages a = 0)
    ∧ text (page_info_label a)
      = match input_path a with
        | Some _ => "Total pages: " +:+ Str.of_Z (total_pages a)
        | None => ""
        end;
  labels_short :
    (String.length (text (input_label a)) ≤ 80)%nat
    ∧ (String.length (text (output_label a)) ≤ 80)%nat;
}.

(** [pathlib] on a file name without a directory: the name is cut at
    its last dot, unless that dot is its first or its last character. *)
Fixpoint cut_last_dot (name : string) : option (string * string) :=
  match name with
  | EmptyString => None
  | String c name' =>
      match cut_last_dot name' with
      | Some (before, after) => Some (String c before, after)
      | None =>
          if Ascii.eqb c "."%char then Some (EmptyString, name) else None
      end
  end.

Definition bare_stem (name : string) : string :=
  match cut_last_dot name with
  | Some (String c before, String _ (String _ _)) => String c before
  | _ => name
  end.

Definition bare_suffix (name : string) : string :=
  match cut_last_dot name with
  | Some (String _ _, String d (String c after)) => String d (String c after)
  | _ => EmptyString
  end.

Definition sample_platform : platform :=
  Platform bare_stem bare_suffix (λ _ name, name)
           (λ s, "invalid literal for int() with base 10: '" +:+ s +:+ "'")
           "'NoneType' object has no attribute 'seek'"
           "expected str, bytes or os.PathLike object, not NoneType".

(** The window after the sample document has been picked as input. *)
Definition loaded_window : app :=
  browse_input sample_platform "in.pdf" init sample_world.

End Gui.

(** * Properties *)

(** ** Strings *)

Module StrFacts.
Import Str.

Lemma remove_idem c s : remove c (remove c s) = remove c s.
Proof.
  induction s as [|a s IH]; simpl; [done|].
  destruct (Ascii.eqb a c) eqn:E; simpl; [done|].
  by rewrite E, IH.
Qed.

Lemma remove_absent c s : contains c s = false → remove c s = s.
Proof.
  induction s as [|a s IH]; simpl; [done|].
  destruct (Ascii.eqb a c); simpl; [done|].
  intros H. by rewrite IH.
Qed.

Lemma split_nonempty sep s : split sep s ≠ [].
Proof.
  destruct s as [|a s]; simpl; [done|].
  destruct (Ascii.eqb a sep); [done|].
  by destruct (split sep s).
Qed.

Lemma split_absent sep s : contains sep s = false → split sep s = [s].
Proof.
  induction s as [|a s IH]; simpl; [done|].
  destruct (Ascii.eqb a sep); simpl; [done|].
  intros H. by rewrite IH.
Qed.

Lemma split_first_None sep s :
  split_first sep s = None ↔ contains sep s = false.
Proof.
  induction s as [|a s IH]; simpl; [done|].
  destruct (Ascii.eqb a sep); simpl; [done|].
  destruct (split_first sep s) as [[b r]|]; [|tauto].
  split; [done|]. intros H. apply IH in H. done.
Qed.

Lemma split_first_Some sep s before after :
  split_first sep s = Some (before, after) →
  contains sep before = false ∧ contains sep s = true
  ∧ count sep s = S (count sep after).
Proof.
  revert before.
  induction s as [|a s IH]; simpl; intros before; [done|].
  destruct (Ascii.eqb a sep) eqn:E; simpl.
  - intros [= <- <-]. done.
  - destruct (split_first sep s) as [[b r]|]; [|done].
    intros [= <- <-]. destruct (IH b eq_refl) as (H1 & H2 & H3).
    simpl. by rewrite E.
Qed.

Lemma contains_count sep s : contains sep s = false → count sep s = O.
Proof.
  induction s as [|a s IH]; simpl; [done|].
  destruct (Ascii.eqb a sep); simpl; [done|]. exact IH.
Qed.

End StrFacts.

(** ** Integer literals *)

Module PyIntFacts.
Import Str PyInt.

Local Arguments unsigned : simpl never.

Lemma is_digit_value c : is_digit c = true → 0 ≤ digit_value c ≤ 9.
Proof.
  unfold is_digit, digit_value. intros H.
  apply andb_prop in H as [H1 H2].
  apply Nat.leb_le in H1, H2. lia.
Qed.

Lemma space_not c h :
  is_space c = true → is_space h = false → Ascii.eqb c h = false.
Proof.
  intros Hc Hh. destruct (Ascii.eqb_spec c h); [congruence|done].
Qed.

Lemma digit_not c h :
  is_digit c = true → is_digit h = false → Ascii.eqb c h = false.
Proof.
  intros Hc Hh. destruct (Ascii.eqb_spec c h); [congruence|done].
Qed.

Lemma foreign_hyphen : foreign hyphen.
Proof. by vm_compute. Qed.

Lemma lstrip_contains h s :
  is_space h = false → contains h (lstrip s) = contains h s.
Proof.
  intros Hh. induction s as [|c s IH]; simpl; [done|].
  destruct (is_space c) eqn:E; [|done].
  by rewrite (space_not c h E Hh).
Qed.

Lemma all_space_contains h s :
  is_space h = false → all_space s = true → contains h s = false.
Proof.
  intros Hh. induction s as [|c s IH]; simpl; [done|].
  intros [Hc Hs]%andb_prop. by rewrite (space_not c h Hc Hh), IH.
Qed.

Lemma all_space_lstrip s : all_space s = true → lstrip s = EmptyString.
Proof.
  induction s as [|c s IH]; simpl; [done|].
  intros [-> Hs]%andb_prop. auto.
Qed.

Lemma scan_nonneg p acc s n rest :
  0 ≤ acc → scan p acc s = Some (n, rest) → 0 ≤ n.
Proof.
  revert p acc. induction s as [|c s IH]; simpl; intros p acc Hacc.
  - destruct p; [done|]. by intros [= <- <-].
  - destruct (is_digit c) eqn:Hd.
    + apply IH. pose proof (is_digit_value c Hd). lia.
    + destruct (Ascii.eqb c underscore).
      * destruct p; [done|]. by apply IH.
      * destruct p; [done|]. by intros [= <- <-].
Qed.

Lemma scan_contains h p acc s n rest :
  foreign h → scan p acc s = Some (n, rest) →
  contains h s = contains h rest.
Proof.
  intros (Hs & Hd & Hu). revert p acc.
  induction s as [|c s IH]; simpl; intros p acc.
  - destruct p; [done|]. by intros [= <- <-].
  - destruct (is_digit c) eqn:Ec.
    + rewrite (digit_not c h Ec Hd). apply IH.
    + destruct (Ascii.eqb_spec c underscore) as [->|Hne].
      * rewrite Hu. destruct p; [done|]. apply IH.
      * destruct p; [done|]. by intros [= <- <-].
Qed.

Lemma unsigned_Some h s n :
  foreign h → unsigned s = Some n → 0 ≤ n ∧ contains h s = false.
Proof.
  intros Hh. unfold unsigned. destruct s as [|c s]; [done|].
  destruct (is_digit c); [|done].
  destruct (scan false 0 (String c s)) as [[m rest]|] eqn:E; [|done].
  destruct (all_space rest) eqn:Er; [|done]. intros [= <-]. split.
  - by eapply scan_nonneg, E.
  - rewrite (scan_contains h _ _ _ _ _ Hh E).
    apply all_space_contains; [apply Hh|done].
Qed.

(** A literal without a hyphen is not negative. *)
Lemma int_nonneg s n :
  contains hyphen s = false → int s = Some n → 0 ≤ n.
Proof.
  intros Hs. unfold int.
  rewrite <-(lstrip_contains hyphen s) in Hs by done.
  destruct (lstrip s) as [|c s']; [done|].
  simpl in Hs. apply orb_false_elim in Hs as [Hc Hs'].
  destruct (Ascii.eqb c plus).
  - intros H. by apply (unsigned_Some hyphen) in H as [? _];
      [|apply foreign_hyphen].
  - rewrite Hc. intros H.
    by apply (unsigned_Some hyphen) in H as [? _]; [|apply foreign_hyphen].
Qed.

(** A literal with a hyphen has it as its sign: nothing but whitespace
    comes before it, and the value is not positive. *)
Lemma int_hyphen s n :
  contains hyphen s = true → int s = Some n →
  n ≤ 0 ∧ ∃ ws after,
    split_first hyphen s = Some (ws, after) ∧ all_space ws = true.
Proof.
  unfold int. induction s as [|c s IH]; simpl; [done|].
  destruct (is_space c) eqn:Ec.
  - rewrite (space_not c hyphen Ec eq_refl). simpl. intros Hs Hn.
    destruct (IH Hs Hn) as (Hle & ws & after & -> & Hws).
    split; [done|]. exists (String c ws), after. simpl.
    by rewrite Ec, Hws.
  - intros Hs. destruct (Ascii.eqb_spec c plus) as [->|Hp].
    + intros H. apply (unsigned_Some hyphen) in H as [_ H];
        [|apply foreign_hyphen].
      simpl in Hs. congruence.
    + destruct (Ascii.eqb c hyphen) eqn:Eh.
      * destruct (unsigned s) as [m|] eqn:Em; [|done].
        intros [= <-].
        apply (unsigned_Some hyphen) in Em as [Hm _];
          [|apply foreign_hyphen].
        split; [lia|]. by exists EmptyString, s.
      * intros H. apply (unsigned_Some hyphen) in H as [_ H];
          [|apply foreign_hyphen].
        simpl in H. rewrite Eh in H. simpl in H, Hs. congruence.
Qed.

Lemma int_all_space s : all_space s = true → int s = None.
Proof. intros H. unfold int. by rewrite all_space_lstrip. Qed.

End PyIntFacts.

(** ** The parser *)

Module ParserFacts.
Import Str PyInt StrFacts PyIntFacts.

Lemma denotes_empty n : ¬ denotes EmptyString n.
Proof. by unfold denotes. Qed.

Lemma denotes_nonneg part n : denotes part n → 0 ≤ n.
Proof.
  unfold denotes.
  destruct (split_first hyphen part) as [[start end_]|] eqn:E.
  - intros (a & b & Ha & _ & Hn).
    apply split_first_Some in E as (Hs & _).
    pose proof (int_nonneg _ _ Hs Ha). lia.
  - apply split_first_None in E. by apply int_nonneg.
Qed.

Lemma parse_part_Ok part pages pages' :
  parse_part part pages = Ok pages' →
  acceptable part ∧ ∀ n, n ∈ pages' ↔ n ∈ pages ∨ denotes part n.
Proof.
  unfold parse_part, acceptable, valid_token, denotes.
  destruct part as [|c part]; [intros [= <-]; split; [by left|]|].
  { intros n. simpl. naive_solver. }
  destruct (split_first hyphen (String c part)) as [[start end_]|].
  - destruct (int start) as [a|]; [|done].
    destruct (int end_) as [b|]; [|done].
    destruct (Z.gtb_spec a b) as [Hgt|Hle]; [done|].
    intros [= <-]. split; [right; by apply Z.leb_le|].
    intros n. rewrite elem_of_union, elem_of_list_to_set.
    unfold range. rewrite elem_of_seqZ.
    split; (intros [?|H]; [by left|right]).
    + exists a, b. repeat split; lia.
    + destruct H as (? & ? & [= <-] & [= <-] & ?). lia.
  - destruct (int (String c part)) as [m|]; [|done].
    intros [= <-]. split; [by right|].
    intros n. rewrite elem_of_union, elem_of_singleton. naive_solver.
Qed.

Lemma parse_part_Raise part pages err :
  parse_part part pages = Raise err →
  part ≠ EmptyString ∧ valid_token part = false
  ∧ offending_token err = part.
Proof.
  unfold parse_part, valid_token.
  destruct part as [|c part]; [done|].
  destruct (split_first hyphen (String c part)) as [[start end_]|].
  - destruct (int start) as [a|]; [|by intros [= <-]].
    destruct (int end_) as [b|]; [|by intros [= <-]].
    destruct (Z.gtb_spec a b) as [Hgt|Hle]; [|done].
    intros [= <-]. repeat split; [done|]. apply Z.leb_gt. lia.
  - destruct (int (String c part)) as [m|]; [done|]. by intros [= <-].
Qed.

Lemma parse_part_raised part pages err :
  parse_part part pages = Raise err → raised_on part err.
Proof.
  unfold parse_part. destruct part as [|c part]; [done|].
  destruct (split_first hyphen (String c part)) as [[start end_]|] eqn:E.
  - destruct (int start) as [a|] eqn:Ea;
      [|intros [= <-]; by eapply raised_start].
    destruct (int end_) as [b|] eqn:Eb;
      [|intros [= <-]; by eapply raised_end].
    destruct (Z.gtb_spec a b) as [Hgt|Hle]; [|done].
    intros [= <-]. eapply raised_order; [done..|lia].
  - apply split_first_None in E.
    destruct (int (String c part)) as [m|] eqn:Em; [done|].
    intros [= <-]. by apply raised_page_number.
Qed.

Lemma parse_parts_raised parts pages err :
  parse_parts parts pages = Raise err → raised_on (offending_token err) err.
Proof.
  revert pages. induction parts as [|part parts IH]; simpl; intros pages;
    [done|].
  destruct (parse_part part pages) as [pages1|err1] eqn:E; simpl.
  - apply IH.
  - intros [= <-]. pose proof (parse_part_Raise _ _ _ E) as (_ & _ & ->).
    by eapply parse_part_raised.
Qed.

Lemma parse_page_ranges_raised page_input err :
  parse_page_ranges page_input = Raise err →
  raised_on (offending_token err) err.
Proof.
  unfold parse_page_ranges.
  destruct (parse_parts (parts_of page_input) ∅) as [set|err'] eqn:E;
    [done|].
  simpl. intros [= <-]. by eapply parse_parts_raised.
Qed.

(** Two hyphens or more in a token that is not accepted: cut at the
    first hyphen, one of the two texts is not an integer literal, or
    both are, the second with a minus sign, and the start is above the
    end. *)
Lemma several_hyphens_cause part :
  (2 ≤ count hyphen part)%nat → valid_token part = false →
  ∃ start end_,
    split_first hyphen part = Some (start, end_)
    ∧ (int start = None ∨ int end_ = None
       ∨ ∃ a b, int start = Some a ∧ int end_ = Some b
                ∧ b ≤ 0 ≤ a ∧ b < a).
Proof.
  intros Hc. unfold valid_token.
  destruct (split_first hyphen part) as [[start end_]|] eqn:E.
  - pose proof (split_first_Some _ _ _ _ E) as (Hs & _ & Hcount).
    intros Hv. exists start, end_. split; [done|].
    destruct (int start) as [a|] eqn:Ea; [|by left].
    destruct (int end_) as [b|] eqn:Eb; [|by right; left].
    assert (contains hyphen end_ = true) as He.
    { destruct (contains hyphen end_) eqn:C; [done|].
      apply contains_count in C. lia. }
    pose proof (int_nonneg _ _ Hs Ea).
    destruct (int_hyphen _ _ He Eb) as [Hb _].
    apply Z.leb_gt in Hv. right. right. exists a, b.
    repeat split; (done || lia).
  - apply split_first_None, contains_count in E. lia.
Qed.

Lemma acceptable_not_invalid part :
  acceptable part → part ≠ EmptyString → valid_token part = false → False.
Proof. intros [->|H]; [done|congruence]. Qed.

Lemma parse_parts_Ok parts pages pages' :
  parse_parts parts pages = Ok pages' →
  Forall acceptable parts
  ∧ ∀ n, n ∈ pages' ↔ n ∈ pages ∨ ∃ part, part ∈ parts ∧ denotes part n.
Proof.
  revert pages. induction parts as [|part parts IH]; simpl; intros pages.
  - intros [= <-]. split; [constructor|]. intros n. set_solver.
  - destruct (parse_part part pages) as [pages1|err] eqn:E; [|done].
    simpl. intros H. apply IH in H as [Hall Hn].
    apply parse_part_Ok in E as [Hacc Hpart].
    split; [by constructor|]. intros n. rewrite Hn, Hpart.
    split.
    + intros [[?|?]|(t & ? & ?)]; [by left|right..].
      * exists part. split; [left|done].
      * exists t. split; [by right|done].
    + intros [?|(t & [->|?]%elem_of_cons & ?)]; [by left; left|by left; right|].
      right. by exists t.
Qed.

(** The exception that leaves the loop quotes the first token that is
    not acceptable. *)
Lemma parse_parts_Raise parts pages err :
  parse_parts parts pages = Raise err →
  ∃ before after,
    parts = before ++ offending_token err :: after
    ∧ Forall acceptable before
    ∧ offending_token err ≠ EmptyString
    ∧ valid_token (offending_token err) = false.
Proof.
  revert pages. induction parts as [|part parts IH]; simpl; intros pages.
  - done.
  - destruct (parse_part part pages) as [pages1|err1] eqn:E; simpl.
    + intros H. apply IH in H as (before & after & -> & Hb & Hne & Hv).
      apply parse_part_Ok in E as [Hacc _].
      exists (part :: before), after. by repeat split; [constructor|..].
    + intros [= <-]. apply parse_part_Raise in E as (Hne & Hv & Ht).
      exists [], parts. rewrite Ht. by repeat split; [constructor|..].
Qed.

Lemma strict_of_NoDup (l : list Z) :
  StronglySorted Z.le l → NoDup l → StronglySorted Z.lt l.
Proof.
  induction 1 as [|x l Hl IH Hx]; intros Hnd; [constructor|].
  apply NoDup_cons in Hnd as [Hx' Hnd].
  constructor; [by apply IH|].
  rewrite Forall_forall in Hx |- *. intros y Hy.
  specialize (Hx y Hy). assert (x ≠ y) by (intros ->; done). lia.
Qed.

Lemma sorted_elem (pages : gset Z) n : n ∈ sorted pages ↔ n ∈ pages.
Proof.
  unfold sorted. by rewrite merge_sort_Permutation, elem_of_elements.
Qed.

Lemma sorted_strict (pages : gset Z) : StronglySorted Z.lt (sorted pages).
Proof.
  unfold sorted. apply strict_of_NoDup.
  - apply StronglySorted_merge_sort; apply _.
  - rewrite merge_sort_Permutation. apply NoDup_elements.
Qed.

Lemma parse_page_ranges_Ok page_input pages :
  parse_page_ranges page_input = Ok pages →
  Forall acceptable (parts_of page_input)
  ∧ StronglySorted Z.lt pages
  ∧ ∀ n, n ∈ pages ↔ ∃ part, part ∈ parts_of page_input ∧ denotes part n.
Proof.
  unfold parse_page_ranges.
  destruct (parse_parts (parts_of page_input) ∅) as [set|err] eqn:E;
    [|done].
  simpl. intros [= <-]. apply parse_parts_Ok in E as [Hall Hn].
  split; [done|]. split; [apply sorted_strict|].
  intros n. rewrite sorted_elem, Hn. set_solver.
Qed.

Lemma parse_page_ranges_Raise page_input err :
  parse_page_ranges page_input = Raise err →
  ∃ before after,
    parts_of page_input = before ++ offending_token err :: after
    ∧ Forall acceptable before
    ∧ offending_token err ≠ EmptyString
    ∧ valid_token (offending_token err) = false.
Proof.
  unfold parse_page_ranges.
  destruct (parse_parts (parts_of page_input) ∅) as [set|err'] eqn:E;
    [done|].
  simpl. intros [= <-]. by eapply parse_parts_Raise.
Qed.

(** Two or more hyphens: the text before the first one has no sign,
    the text after it has a minus sign at best. *)
Lemma several_hyphens_invalid part :
  (2 ≤ count hyphen part)%nat →
  valid_token part = false
  ∨ ∃ start end_,
      split_first hyphen part = Some (start, end_)
      ∧ int start = Some 0 ∧ int end_ = Some 0.
Proof.
  intros Hc. unfold valid_token.
  destruct (split_first hyphen part) as [[start end_]|] eqn:E.
  - pose proof (split_first_Some _ _ _ _ E) as (Hs & _ & Hcount).
    destruct (int start) as [a|] eqn:Ea; [|by left].
    destruct (int end_) as [b|] eqn:Eb; [|by left].
    assert (contains hyphen end_ = true) as He.
    { destruct (contains hyphen end_) eqn:C; [done|].
      apply contains_count in C. lia. }
    pose proof (int_nonneg _ _ Hs Ea).
    destruct (int_hyphen _ _ He Eb) as [Hb _].
    destruct (Z.leb_spec a b); [|by left].
    right. exists start, end_.
    assert (a = 0) as -> by lia. assert (b = 0) as -> by lia. done.
  - apply split_first_None, contains_count in E. lia.
Qed.

(** A literal written with a minus sign is never accepted as a token. *)
Lemma signed_literal_invalid part n :
  contains hyphen part = true → int part = Some n →
  valid_token part = false.
Proof.
  intros Hc Hn. destruct (int_hyphen _ _ Hc Hn) as (_ & ws & after & E & Hws).
  unfold valid_token. rewrite E. by rewrite (int_all_space ws Hws).
Qed.

Lemma parts_of_token part :
  contains space part = false → contains comma part = false →
  parts_of part = [part].
Proof.
  intros Hs Hc. unfold parts_of.
  rewrite (remove_absent _ _ Hs). by apply split_absent.
Qed.

End ParserFacts.

(** ** The extractor *)

Section ExtractorFacts.

Context {Page : Type}.
Implicit Types (reader : list (result string Page)) (w : world Page).
Implicit Types (writer copied : list Page).

Lemma get_page_Ok reader i page :
  get_page reader i = Ok page ↔ reader !! Z.to_nat i = Some (Ok page).
Proof.
  unfold get_page. destruct (reader !! Z.to_nat i) as [r|]; [|done].
  split; [by intros ->|by intros [= ->]].
Qed.

(** The loop splits the requested numbers by the bounds test, in their
    order, and copies the page of every number that passes. *)
Lemma add_pages_Ok reader N S writer valid invalid writer' valid' invalid' :
  add_pages reader N S (writer, valid, invalid)
    = Ok (writer', valid', invalid') →
  valid' = valid ++ filter (λ p, 1 ≤ p ≤ N) S
  ∧ invalid' = invalid ++ filter (λ p, ¬ 1 ≤ p ≤ N) S
  ∧ ∃ copied,
      writer' = writer ++ copied
      ∧ Forall2 (λ p page, reader !! Z.to_nat (p - 1) = Some (Ok page))
                (filter (λ p, 1 ≤ p ≤ N) S) copied.
Proof.
  revert writer valid invalid.
  induction S as [|p S IH]; simpl; intros writer valid invalid.
  - intros [= <- <- <-]. rewrite !app_nil_r. repeat split.
    exists []. by rewrite app_nil_r.
  - destruct (decide (1 ≤ p ≤ N)) as [Hp|Hp].
    + destruct (get_page reader (p - 1)) as [page|e] eqn:E; [|done].
      simpl. intros H. apply IH in H as (-> & -> & copied & -> & HF).
      rewrite filter_cons_True by done.
      rewrite filter_cons_False by tauto.
      rewrite <-!app_assoc. repeat split.
      exists (page :: copied). split; [done|].
      constructor; [by apply get_page_Ok|done].
    + intros H. apply IH in H as (-> & -> & copied & -> & HF).
      rewrite filter_cons_False by done.
      rewrite filter_cons_True by done.
      rewrite <-!app_assoc. repeat split. by exists copied.
Qed.

Lemma add_pages_none reader N S writer valid invalid :
  Forall (λ p, ¬ 1 ≤ p ≤ N) S →
  add_pages reader N S (writer, valid, invalid)
    = Ok (writer, valid, invalid ++ S).
Proof.
  intros H. revert invalid.
  induction H as [|p S Hp _ IH]; simpl; intros invalid.
  - by rewrite app_nil_r.
  - rewrite decide_False by done. by rewrite IH, <-app_assoc.
Qed.

(** The loop ends without an exception when every page it has to copy
    loads. *)
Lemma add_pages_loads reader N S st :
  (∀ p, p ∈ S → 1 ≤ p ≤ N →
        ∃ page, reader !! Z.to_nat (p - 1) = Some (Ok page)) →
  ∃ st', add_pages reader N S st = Ok st'.
Proof.
  revert st. induction S as [|p S IH]; simpl; intros st Hall; [by eexists|].
  destruct st as [[writer valid] invalid].
  destruct (decide (1 ≤ p ≤ N)) as [Hp|Hp].
  - destruct (Hall p) as [page Hpage]; [by left|done|].
    apply get_page_Ok in Hpage. rewrite Hpage. simpl.
    apply IH. intros q Hq. apply Hall. by right.
  - apply IH. intros q Hq. apply Hall. by right.
Qed.

Lemma filter_StronglySorted (P : Z → Prop) `{!∀ x, Decision (P x)}
    (l : list Z) :
  StronglySorted Z.lt l → StronglySorted Z.lt (filter P l).
Proof.
  induction 1 as [|x l Hl IH Hx]; [constructor|].
  rewrite filter_cons. destruct (decide (P x)); [|done].
  constructor; [done|]. rewrite Forall_forall in Hx |- *.
  intros y [_ Hy]%list_elem_of_filter. by apply Hx.
Qed.

Lemma filter_holds (P : Z → Prop) `{!∀ x, Decision (P x)} (l : list Z) :
  Forall P l → filter P l = l.
Proof.
  induction 1 as [|x l Hx _ IH]; [done|].
  by rewrite filter_cons_True, IH.
Qed.

Lemma PdfReader_Ok input w reader w' :
  PdfReader input w = (w', Ok reader) →
  w' = w ∧ files w !! input = Some (PdfFile reader).
Proof.
  unfold PdfReader. destruct (files w !! input) as [[pages|e]|]; [|done..].
  by intros [= <- <-].
Qed.

Lemma PdfReader_state input w w' r : PdfReader input w = (w', r) → w' = w.
Proof.
  unfold PdfReader. destruct (files w !! input) as [[pages|e]|];
    by intros [= <- <-].
Qed.

(** What a run of the [try] body that ends in [return] went through. *)
Lemma trim_pdf_try_Ok input S output w w' success message valid_pages :
  trim_pdf_try input S output w = (w', Ok (success, message, valid_pages)) →
  ∃ reader writer invalid_pages,
    files w !! input = Some (PdfFile reader)
    ∧ add_pages reader (Z.of_nat (length reader)) S ([], [], [])
        = Ok (writer, valid_pages, invalid_pages)
    ∧ (valid_pages = [] ∧ success = false ∧ w' = w
       ∧ message = "No valid pages to include in the output PDF."
       ∨ valid_pages ≠ [] ∧ success = true
         ∧ open_error w output = None ∧ write_error w = None
         ∧ w' = set_file output (PdfFile (Ok <$> writer))
                  (set_file output (NotPdf "Cannot read an empty file") w)
         ∧ message = created_message valid_pages invalid_pages
                       (Z.of_nat (length reader))).
Proof.
  unfold trim_pdf_try, bind, lift, ret.
  destruct (PdfReader input w) as [w1 [reader|e]] eqn:ER; [|done].
  apply PdfReader_Ok in ER as [-> Hin].
  destruct (add_pages _ _ S _) as [[[writer valid] invalid]|e] eqn:EA;
    [|done].
  destruct valid as [|p valid].
  - intros [= <- <- <- <-]. exists reader, writer, invalid.
    split; [done|]. split; [done|]. by left.
  - unfold open_wb, write.
    destruct (open_error w output) as [e|] eqn:EO; [done|].
    simpl. destruct (write_error w) as [[e partial]|] eqn:EW; [done|].
    intros [= <- <- <- <-]. exists reader, writer, invalid.
    split; [done|]. split; [done|]. right. by repeat split.
Qed.

Lemma trim_pdf_of_try input S output w :
  trim_pdf input S output w
  = match trim_pdf_try input S output w with
    | (w', Ok r) => (w', r)
    | (w', Raise e) => (w', (false, "Error processing PDF: " +:+ e, []))
    end.
Proof. done. Qed.

Lemma trim_pdf_true input S output w w' message valid_pages :
  trim_pdf input S output w = (w', (true, message, valid_pages)) →
  trim_pdf_try input S output w = (w', Ok (true, message, valid_pages)).
Proof.
  rewrite trim_pdf_of_try.
  destruct (trim_pdf_try input S output w) as [w1 [r|e]]; [|done].
  by intros [= <- <-].
Qed.

(** With a source whose requested pages load and a destination that can
    be opened and written, a request with a page within the bounds
    succeeds. *)
Lemma trim_pdf_succeeds input S output w reader :
  files w !! input = Some (PdfFile reader) →
  (∀ p, p ∈ S → 1 ≤ p ≤ Z.of_nat (length reader) →
        ∃ page, reader !! Z.to_nat (p - 1) = Some (Ok page)) →
  open_error w output = None → write_error w = None →
  included (Z.of_nat (length reader)) S ≠ [] →
  ∃ w' message,
    trim_pdf input S output w
    = (w', (true, message, included (Z.of_nat (length reader)) S)).
Proof.
  intros Hin Hload Hopen Hwrite Hne.
  destruct (add_pages_loads reader _ S ([], [], []) Hload)
    as [[[writer valid] invalid] Hadd].
  pose proof (add_pages_Ok _ _ _ _ _ _ _ _ _ Hadd) as (Hv & _).
  simpl in Hv. fold (included (Z.of_nat (length reader)) S) in Hv.
  rewrite <-Hv in Hne |- *.
  unfold trim_pdf, trim_pdf_try, bind, lift, PdfReader.
  rewrite Hin. cbv zeta. rewrite Hadd.
  destruct valid as [|p valid]; [done|].
  unfold open_wb, write. rewrite Hopen. simpl. rewrite Hwrite.
  by eexists _, _.
Qed.

End ExtractorFacts.

(** * The claims *)

Import Str PyInt StrFacts PyIntFacts ParserFacts.

Lemma malformed_invalid part : malformed part → valid_token part = false.
Proof.
  unfold valid_token.
  intros [Hc Hn|start end_ E H|start end_ a b E Ha Hb Hlt|Hc Hz].
  - apply split_first_None in Hc. by rewrite Hc, Hn.
  - rewrite E. destruct H as [->| ->]; [done|]. by destruct (int start).
  - rewrite E, Ha, Hb. apply Z.leb_gt. lia.
  - by destruct (several_hyphens_invalid part Hc) as [H|H].
Qed.

(** ** The parser *)

Example parse_ranges_and_pages :
  parse_page_ranges "1-3,5,6-9,11" = Ok [1; 2; 3; 5; 6; 7; 8; 9; 11].
Proof. by vm_compute. Qed.

Example parse_unordered : parse_page_ranges "3,1,2" = Ok [1; 2; 3].
Proof. by vm_compute. Qed.

Example parse_empty : parse_page_ranges "" = Ok [].
Proof. by vm_compute. Qed.

Example parse_empty_token : parse_page_ranges "1,,3" = Ok [1; 3].
Proof. by vm_compute. Qed.

Example parse_not_a_number :
  parse_page_ranges "abc" = Raise (InvalidPageNumber "abc").
Proof. by vm_compute. Qed.

Example parse_reversed_range :
  parse_page_ranges "5-2" = Raise (InvalidRangeFormat "5-2" (StartAfterEnd "5-2")).
Proof. by vm_compute. Qed.

Example parse_two_hyphens :
  parse_page_ranges "1-2-3"
  = Raise (InvalidRangeFormat "1-2-3" (InvalidLiteral "2-3")).
Proof. by vm_compute. Qed.

(** C2, as stated, fails: the token [-5] is a valid integer, and the
    expression [1,-5] made of two valid integers is refused. *)
Lemma signed_integer_token_refused :
  parts_of "1,-5" = ["1"; "-5"]
  ∧ int "1" = Some 1 ∧ int "-5" = Some (-5)
  ∧ parse_page_ranges "1,-5"
    = Raise (InvalidRangeFormat "-5" (InvalidLiteral "")).
Proof. by vm_compute. Qed.

(** C2, amended: when every token that is not empty either has no
    hyphen and is an integer literal, or is cut at its first hyphen
    into two integer literals [start <= end], parsing succeeds and
    returns the strictly increasing list of exactly the integers that
    the tokens stand for. *)
Theorem parse_valid_expression page_input :
  Forall acceptable (parts_of page_input) →
  ∃ pages,
    parse_page_ranges page_input = Ok pages
    ∧ StronglySorted Z.lt pages
    ∧ ∀ n, n ∈ pages ↔ ∃ part, part ∈ parts_of page_input ∧ denotes part n.
Proof.
  intros Hall.
  destruct (parse_page_ranges page_input) as [pages|err] eqn:E.
  - exists pages. split; [done|].
    by apply parse_page_ranges_Ok in E as (_ & ? & ?).
  - apply parse_page_ranges_Raise in E as (before & after & Hp & _ & Hne & Hv).
    rewrite Hp in Hall. apply Forall_app in Hall as [_ Hall].
    apply Forall_cons in Hall as [Hacc _].
    destruct (acceptable_not_invalid _ Hacc Hne Hv).
Qed.

Lemma parse_valid_expression_witness :
  Forall acceptable (parts_of "1-3,5,6-9,,11")
  ∧ ∃ pages,
      parse_page_ranges "1-3,5,6-9,,11" = Ok pages
      ∧ StronglySorted Z.lt pages
      ∧ ∀ n, n ∈ pages
             ↔ ∃ part, part ∈ parts_of "1-3,5,6-9,,11" ∧ denotes part n.
Proof.
  assert (Forall acceptable (parts_of "1-3,5,6-9,,11")) as H.
  { change (parts_of "1-3,5,6-9,,11") with ["1-3"; "5"; "6-9"; ""; "11"].
    repeat constructor; first [by left | by right]. }
  split; [exact H|]. exact (parse_valid_expression _ H).
Defined.

(** C3, as stated, fails: the token [0--0] has two hyphens and is
    accepted as the range from 0 to 0. *)
Lemma two_hyphens_accepted :
  parts_of "0--0" = ["0--0"]
  ∧ count hyphen "0--0" = 2%nat
  ∧ parse_page_ranges "0--0" = Ok [0].
Proof. by vm_compute. Qed.

Example parse_hyphens_first :
  parse_page_ranges "--5"
  = Raise (InvalidRangeFormat "--5" (InvalidLiteral "")).
Proof. by vm_compute. Qed.

Example parse_start_above_signed_end :
  parse_page_ranges "1--5"
  = Raise (InvalidRangeFormat "1--5" (StartAfterEnd "1--5")).
Proof. by vm_compute. Qed.

(** C3, amended: parsing raises, and returns no list, as soon as some
    token that is not empty is malformed: it has no hyphen and is not an
    integer literal; or a text around its first hyphen is not an integer
    literal; or its start exceeds its end; or it has two hyphens or
    more and is not a range from zero to minus zero.  The exception
    quotes the first token that is not accepted, and is the one of
    line 47 for a token without a hyphen and the one of line 41
    otherwise, caused by the first of the two texts around the first
    hyphen that is not an integer literal or by a start above the end.
    A malformed token with two hyphens or more, cut at its first
    hyphen, has a text before it that is not an integer literal, or a
    remainder that is not one, or both are, the remainder with a minus
    sign, and the start exceeds the end. *)
Theorem parse_rejects_malformed page_input part :
  part ∈ parts_of page_input → part ≠ EmptyString → malformed part →
  ∃ err before after,
    parse_page_ranges page_input = Raise err
    ∧ parts_of page_input = before ++ offending_token err :: after
    ∧ Forall acceptable before
    ∧ offending_token err ≠ EmptyString
    ∧ valid_token (offending_token err) = false
    ∧ raised_on (offending_token err) err
    ∧ ((2 ≤ count hyphen part)%nat →
       ∃ start end_,
         split_first hyphen part = Some (start, end_)
         ∧ (int start = None ∨ int end_ = None
            ∨ ∃ a b, int start = Some a ∧ int end_ = Some b
                     ∧ b ≤ 0 ≤ a ∧ b < a)).
Proof.
  intros Hin Hne Hbad%malformed_invalid.
  destruct (parse_page_ranges page_input) as [pages|err] eqn:E.
  - apply parse_page_ranges_Ok in E as (Hall & _).
    rewrite Forall_forall in Hall.
    destruct (acceptable_not_invalid _ (Hall _ Hin) Hne Hbad).
  - exists err.
    pose proof (parse_page_ranges_raised _ _ E) as Hraised.
    apply parse_page_ranges_Raise in E
      as (before & after & Hparts & Hbefore & Hne' & Hv).
    exists before, after. repeat split; try done.
    intros Hc. by apply several_hyphens_cause.
Qed.

Lemma parse_rejects_malformed_witness :
  "1--5" ∈ parts_of "1, 1--5,abc" ∧ "1--5" ≠ EmptyString ∧ malformed "1--5"
  ∧ ∃ err before after,
      parse_page_ranges "1, 1--5,abc" = Raise err
      ∧ parts_of "1, 1--5,abc" = before ++ offending_token err :: after
      ∧ Forall acceptable before
      ∧ offending_token err ≠ EmptyString
      ∧ valid_token (offending_token err) = false
      ∧ raised_on (offending_token err) err
      ∧ ((2 ≤ count hyphen "1--5")%nat →
         ∃ start end_,
           split_first hyphen "1--5" = Some (start, end_)
           ∧ (int start = None ∨ int end_ = None
              ∨ ∃ a b, int start = Some a ∧ int end_ = Some b
                       ∧ b ≤ 0 ≤ a ∧ b < a)).
Proof.
  assert ("1--5" ∈ parts_of "1, 1--5,abc") as H1.
  { change (parts_of "1, 1--5,abc") with ["1"; "1--5"; "abc"].
    apply list_elem_of_further, list_elem_of_here. }
  assert ("1--5" ≠ EmptyString) as H2 by discriminate.
  assert (malformed "1--5") as H3.
  { apply (start_after_end "1--5" "1" "-5" 1 (-5)); [reflexivity..|lia]. }
  split; [exact H1|]. split; [exact H2|]. split; [exact H3|].
  exact (parse_rejects_malformed _ _ H1 H2 H3).
Defined.

(** C7, as stated, fails: the token [-5] stands for a negative integer
    and is refused. *)
Lemma negative_token_refused :
  int "-5" = Some (-5)
  ∧ parse_page_ranges "-5"
    = Raise (InvalidRangeFormat "-5" (InvalidLiteral "")).
Proof. by vm_compute. Qed.

Lemma sorted_singleton n : sorted (∅ ∪ {[ n ]}) = [n].
Proof.
  unfold sorted. rewrite (left_id_L ∅ (∪)), elements_singleton. done.
Qed.

(** C7, amended: a token that is an integer literal of value zero or
    less is accepted exactly when it has no hyphen, and then its value
    is zero; written with a hyphen it is refused as a malformed range.
    Any requested number that is zero or less ends among the invalid
    pages of the extractor's loop, for any document. *)
Theorem nonpositive_token {Page : Type} part n :
  part ≠ EmptyString →
  contains space part = false → contains comma part = false →
  int part = Some n → n ≤ 0 →
  (if contains hyphen part
   then ∃ e, parse_page_ranges part = Raise (InvalidRangeFormat part e)
   else n = 0 ∧ parse_page_ranges part = Ok [0])
  ∧ ∀ (reader : list (result string Page)) S writer valid invalid,
      n ∈ S →
      add_pages reader (Z.of_nat (length reader)) S ([], [], [])
        = Ok (writer, valid, invalid) →
      n ∈ invalid ∧ n ∉ valid.
Proof.
  intros Hne Hs Hc Hn Hle. split.
  - unfold parse_page_ranges. rewrite (parts_of_token _ Hs Hc). simpl.
    unfold parse_part. destruct part as [|c part]; [done|].
    destruct (contains hyphen (String c part)) eqn:Hh.
    + destruct (int_hyphen _ _ Hh Hn) as (_ & ws & after & -> & Hws).
      rewrite (int_all_space _ Hws). by eexists.
    + pose proof (int_nonneg _ _ Hh Hn).
      apply split_first_None in Hh. rewrite Hh, Hn. simpl.
      assert (n = 0) as -> by lia. by rewrite sorted_singleton.
  - intros reader S writer valid invalid Hin H.
    apply add_pages_Ok in H as (-> & -> & _). simpl.
    rewrite !list_elem_of_filter. split; [split; [lia|done]|]. lia.
Qed.

Lemma nonpositive_token_witness :
  "0" ≠ EmptyString
  ∧ contains space "0" = false ∧ contains comma "0" = false
  ∧ int "0" = Some 0 ∧ 0 ≤ 0
  ∧ (if contains hyphen "0"
     then ∃ e, parse_page_ranges "0" = Raise (InvalidRangeFormat "0" e)
     else 0 = 0 ∧ parse_page_ranges "0" = Ok [0])
  ∧ ∀ (reader : list (result string string)) S writer valid invalid,
      0 ∈ S →
      add_pages reader (Z.of_nat (length reader)) S ([], [], [])
        = Ok (writer, valid, invalid) →
      0 ∈ invalid ∧ 0 ∉ valid.
Proof.
  assert ("0" ≠ EmptyString) as H1 by discriminate.
  assert (contains space "0" = false) as H2 by reflexivity.
  assert (contains comma "0" = false) as H3 by reflexivity.
  assert (int "0" = Some 0) as H4 by reflexivity.
  assert (0 ≤ 0) as H5 by lia.
  split; [exact H1|]. split; [exact H2|]. split; [exact H3|].
  split; [exact H4|]. split; [exact H5|].
  exact (nonpositive_token (Page:=string) "0" 0 H1 H2 H3 H4 H5).
Defined.

(** C8, as stated, fails: with a tab between two digits the token is
    refused, and with the tab deleted it is the page 12. *)
Lemma tab_is_not_removed :
  parse_page_ranges (String "1" (String tab "2"))
  = Raise (InvalidPageNumber (String "1" (String tab "2")))
  ∧ delete_whitespace (String "1" (String tab "2")) = "12"
  ∧ parse_page_ranges (delete_whitespace (String "1" (String tab "2")))
    = Ok [12].
Proof. by vm_compute. Qed.

(** C8, amended: parsing removes the space characters first, so an
    expression and the same expression with every space character
    deleted have the same outcome, list or exception. *)
Theorem parse_ignores_spaces page_input :
  parse_page_ranges (remove space page_input) = parse_page_ranges page_input.
Proof.
  unfold parse_page_ranges, parts_of. by rewrite remove_idem.
Qed.

(** C9, as stated, fails: the list returned for [0] holds the page 0. *)
Lemma page_zero_returned :
  parse_page_ranges "0" = Ok [0] ∧ ¬ Forall (λ n, 1 ≤ n) [0].
Proof.
  split; [by vm_compute|]. intros H. apply Forall_cons in H as [H _]. lia.
Qed.

(** C9, amended: every list returned by a successful parse is strictly
    increasing, hence free of duplicates, and every element is at least
    0. *)
Theorem parse_result_invariant page_input pages :
  parse_page_ranges page_input = Ok pages →
  StronglySorted Z.lt pages ∧ Forall (λ n, 0 ≤ n) pages.
Proof.
  intros (_ & Hs & Hn)%parse_page_ranges_Ok. split; [done|].
  apply Forall_forall. intros n (part & _ & Hd)%Hn.
  by eapply denotes_nonneg.
Qed.

Lemma parse_result_invariant_witness :
  parse_page_ranges "3,0-1" = Ok [0; 1; 3]
  ∧ StronglySorted Z.lt [0; 1; 3] ∧ Forall (λ n, 0 ≤ n) [0; 1; 3].
Proof.
  assert (parse_page_ranges "3,0-1" = Ok [0; 1; 3]) as H by reflexivity.
  split; [exact H|]. exact (parse_result_invariant _ _ H).
Defined.

(** A leading plus sign, an underscore between digits and a tab after
    the digits, each on its own. *)
Example parse_extended_samples :
  parse_page_ranges "+5" = Ok [5]
  ∧ parse_page_ranges "1_0" = Ok [10]
  ∧ parse_page_ranges (String "1" (String tab EmptyString)) = Ok [1].
Proof. by vm_compute. Qed.

Module LiteralFacts.

Local Arguments unsigned : simpl never.

Lemma digit_facts c :
  is_decimal_digit c = true →
  is_digit c = true ∧ digit_value c = digit_of c ∧ is_space c = false
  ∧ Ascii.eqb c space = false ∧ Ascii.eqb c comma = false
  ∧ Ascii.eqb c hyphen = false ∧ Ascii.eqb c plus = false
  ∧ Ascii.eqb c underscore = false.
Proof.
  unfold is_decimal_digit. cbn [contains]. intros H.
  repeat (apply orb_prop in H as [H|H];
          [apply Ascii.eqb_eq in H; subst c; by vm_compute|]).
  done.
Qed.

Lemma whitespace_facts c :
  is_other_whitespace c = true →
  is_space c = true ∧ is_digit c = false
  ∧ Ascii.eqb c space = false ∧ Ascii.eqb c comma = false
  ∧ Ascii.eqb c hyphen = false ∧ Ascii.eqb c underscore = false.
Proof.
  unfold is_other_whitespace. cbn [contains]. intros H.
  repeat (apply orb_prop in H as [H|H];
          [apply Ascii.eqb_eq in H; subst c; by vm_compute|]).
  done.
Qed.

Lemma contains_append c s r :
  contains c (s +:+ r) = contains c s || contains c r.
Proof.
  induction s as [|a s IH]; simpl; [done|]. by rewrite IH, orb_assoc.
Qed.

Lemma append_assoc (s r t : string) : (s +:+ r) +:+ t = s +:+ r +:+ t.
Proof.
  induction s as [|a s IH]; [done|].
  change (String a ((s +:+ r) +:+ t) = String a (s +:+ r +:+ t)).
  by rewrite IH.
Qed.

Lemma whitespace_contains c s :
  all_chars is_other_whitespace s = true →
  is_other_whitespace c = false → contains c s = false.
Proof.
  intros Hs Hc. induction s as [|a s IH]; simpl in *; [done|].
  apply andb_prop in Hs as [Ha Hs]. rewrite (IH Hs), orb_false_r.
  destruct (Ascii.eqb_spec a c); [congruence|done].
Qed.

Lemma whitespace_all_space s :
  all_chars is_other_whitespace s = true → all_space s = true.
Proof.
  induction s as [|a s IH]; simpl; [done|].
  intros [Ha Hs]%andb_prop.
  destruct (whitespace_facts a Ha) as (-> & _). auto.
Qed.

Lemma lstrip_whitespace s r :
  all_chars is_other_whitespace s = true → lstrip (s +:+ r) = lstrip r.
Proof.
  induction s as [|a s IH]; simpl; [done|].
  intros [Ha Hs]%andb_prop.
  destruct (whitespace_facts a Ha) as (-> & _). auto.
Qed.

Lemma digits_contains c g :
  all_chars is_decimal_digit g = true →
  is_decimal_digit c = false → contains c g = false.
Proof.
  intros Hg Hc. induction g as [|a g IH]; simpl in *; [done|].
  apply andb_prop in Hg as [Ha Hg]. rewrite (IH Hg), orb_false_r.
  destruct (Ascii.eqb_spec a c); [congruence|done].
Qed.

Lemma digit_group_digits g :
  digit_group g = true → all_chars is_decimal_digit g = true.
Proof. by destruct g. Qed.

Lemma groups_contains c groups :
  Forall (λ g, digit_group g = true) groups →
  is_decimal_digit c = false → Ascii.eqb underscore c = false →
  contains c (String.concat "_" groups) = false.
Proof.
  intros Hall Hc Hu. induction Hall as [|g groups Hg Hall IH]; [done|].
  apply digit_group_digits in Hg.
  destruct groups as [|g' groups].
  - by apply digits_contains.
  - change (String.concat "_" (g :: g' :: groups))
      with (g +:+ String underscore (String.concat "_" (g' :: groups))).
    rewrite contains_append, (digits_contains c g Hg Hc).
    cbn [contains orb]. rewrite Hu. apply IH.
Qed.

Lemma decimal_from_append acc g r :
  decimal_from acc (g +:+ r) = decimal_from (decimal_from acc g) r.
Proof.
  revert acc. induction g as [|a g IH]; intros acc; simpl; [done|].
  apply IH.
Qed.

(** The digit loop reads a group of digits whole. *)
Lemma scan_group p acc g r :
  digit_group g = true →
  scan p acc (g +:+ r) = scan false (decimal_from acc g) r.
Proof.
  destruct g as [|a g]; [done|]. simpl.
  intros [Ha Hg]%andb_prop. revert p acc a Ha.
  induction g as [|b g IH]; intros p acc a Ha; simpl.
  - destruct (digit_facts a Ha) as (-> & -> & _). done.
  - destruct (digit_facts a Ha) as (-> & -> & _).
    simpl in Hg. apply andb_prop in Hg as [Hb Hg].
    by apply (IH Hg false).
Qed.

Lemma scan_rest acc after :
  all_chars is_other_whitespace after = true →
  scan false acc after = Some (acc, after).
Proof.
  destruct after as [|c after]; simpl; [done|].
  intros [Hc _]%andb_prop.
  destruct (whitespace_facts c Hc) as (_ & -> & _ & _ & _ & ->). done.
Qed.

Lemma scan_groups p acc groups after :
  groups ≠ [] → Forall (λ g, digit_group g = true) groups →
  all_chars is_other_whitespace after = true →
  scan p acc (String.concat "_" groups +:+ after)
  = Some (decimal_from acc (String.concat "" groups), after).
Proof.
  intros Hne Hall Hafter. revert p acc.
  induction Hall as [|g groups Hg Hall IH]; [done|]. intros p acc.
  destruct groups as [|g' groups].
  - simpl. rewrite scan_group by done. by apply scan_rest.
  - change (String.concat "_" (g :: g' :: groups))
      with (g +:+ "_" +:+ String.concat "_" (g' :: groups)).
    change (String.concat "" (g :: g' :: groups))
      with (g +:+ String.concat "" (g' :: groups)).
    rewrite append_assoc, scan_group, decimal_from_append by done.
    simpl. apply IH. done.
Qed.

Lemma groups_head groups :
  groups ≠ [] → Forall (λ g, digit_group g = true) groups →
  ∃ c rest, String.concat "_" groups = String c rest
            ∧ is_decimal_digit c = true.
Proof.
  intros Hne Hall. destruct Hall as [|g groups Hg _]; [done|].
  destruct g as [|c g]; [done|]. simpl in Hg.
  apply andb_prop in Hg as [Hc _].
  destruct groups; by eexists _, _.
Qed.

Lemma unsigned_groups groups after :
  groups ≠ [] → Forall (λ g, digit_group g = true) groups →
  all_chars is_other_whitespace after = true →
  unsigned (String.concat "_" groups +:+ after)
  = Some (decimal (String.concat "" groups)).
Proof.
  intros Hne Hall Hafter. unfold unsigned.
  pose proof (scan_groups false 0 groups after Hne Hall Hafter) as Hscan.
  destruct (groups_head groups Hne Hall) as (c & rest & E & Hc).
  rewrite E in Hscan |- *.
  change (String c rest +:+ after) with (String c (rest +:+ after)) in *.
  destruct (digit_facts c Hc) as (-> & _).
  rewrite Hscan. by rewrite (whitespace_all_space after Hafter).
Qed.

Lemma int_extended_literal before sign groups after :
  all_chars is_other_whitespace before = true →
  sign = EmptyString ∨ sign = "+" →
  groups ≠ [] → Forall (λ g, digit_group g = true) groups →
  all_chars is_other_whitespace after = true →
  int (extended_literal before sign groups after)
  = Some (decimal (String.concat "" groups)).
Proof.
  intros Hbefore Hsign Hne Hall Hafter. unfold int, extended_literal.
  rewrite lstrip_whitespace by done.
  pose proof (unsigned_groups groups after Hne Hall Hafter) as Hu.
  destruct Hsign as [-> | ->].
  - change ("" +:+ String.concat "_" groups +:+ after)
      with (String.concat "_" groups +:+ after).
    destruct (groups_head groups Hne Hall) as (c & rest & E & Hc).
    rewrite E in Hu |- *.
    change (String c rest +:+ after) with (String c (rest +:+ after)) in *.
    cbn [lstrip].
    destruct (digit_facts c Hc) as (_ & _ & -> & _ & _ & -> & -> & _).
    done.
  - change ("+" +:+ String.concat "_" groups +:+ after)
      with (String plus (String.concat "_" groups +:+ after)).
    cbn [lstrip]. done.
Qed.

Lemma extended_literal_plain c before sign groups after :
  all_chars is_other_whitespace before = true →
  sign = EmptyString ∨ sign = "+" →
  Forall (λ g, digit_group g = true) groups →
  all_chars is_other_whitespace after = true →
  is_other_whitespace c = false → is_decimal_digit c = false →
  Ascii.eqb underscore c = false → Ascii.eqb plus c = false →
  contains c (extended_literal before sign groups after) = false.
Proof.
  intros Hbefore Hsign Hall Hafter Hw Hd Hu Hp. unfold extended_literal.
  rewrite !contains_append, (whitespace_contains c before),
    (whitespace_contains c after), (groups_contains c groups) by done.
  destruct Hsign as [-> | ->]; [done|].
  change "+" with (String plus EmptyString). cbn [contains orb].
  by rewrite Hp.
Qed.

End LiteralFacts.



(** ** The extractor *)

Example extract_two_of_five :
  trim_pdf "in.pdf" [2; 4] "out.pdf" sample_world
  = (set_file "out.pdf" (PdfFile [Ok "b"; Ok "d"])
       (set_file "out.pdf" (NotPdf "Cannot read an empty file") sample_world),
     (true, "Successfully created PDF with 2 pages", [2; 4])).
Proof. reflexivity. Qed.

Example extract_out_of_bounds :
  trim_pdf "in.pdf" [100] "out.pdf" sample_world
  = (sample_world,
     (false, "No valid pages to include in the output PDF.", [])).
Proof. reflexivity. Qed.

Example extract_missing_source :
  trim_pdf "gone.pdf" [1] "out.pdf" sample_world
  = (sample_world,
     (false,
      "Error processing PDF: [Errno 2] No such file or directory: 'gone.pdf'",
      [])).
Proof. reflexivity. Qed.

Example extract_reports_skipped :
  (trim_pdf "in.pdf" [0; 2; 4; 7] "out.pdf" sample_world).2
  = (true,
     "Successfully created PDF with 2 pages" +:+ newline +:+ newline
     +:+ "Skipped invalid pages: [0, 7] (PDF has 5 pages)",
     [2; 4]).
Proof. reflexivity. Qed.

(** C1, as stated, fails: page 1 of a document of five pages is
    requested and the destination cannot be opened; the list returned
    is empty, not the requested pages within the bounds. *)
Lemma partition_lost_on_write_error :
  files read_only_world !! "in.pdf" = Some (PdfFile five_pages)
  ∧ included 5 [1] = [1]
  ∧ trim_pdf "in.pdf" [1] "out.pdf" read_only_world
    = (read_only_world,
       (false,
        "Error processing PDF: [Errno 13] Permission denied: 'out.pdf'",
        [])).
Proof. by vm_compute. Qed.

(** C1, amended: for every ascending requested list [S] and every
    source document of [N] pages, when the call raises no exception
    inside (so that the handler of line 94 is not what returns), the
    returned list is exactly the elements of [S] between 1 and [N], the
    loop's list of invalid pages is exactly the other elements of [S],
    both in the order of [S] and ascending, together they are [S], and
    the message of a successful call is made from these two lists. *)
Theorem trim_pdf_partition {Page : Type} input S output
    (w w' : world Page) reader success message valid_pages :
  StronglySorted Z.lt S →
  files w !! input = Some (PdfFile reader) →
  trim_pdf_try input S output w = (w', Ok (success, message, valid_pages)) →
  let N := Z.of_nat (length reader) in
  valid_pages = included N S
  ∧ (∃ writer, add_pages reader N S ([], [], [])
               = Ok (writer, valid_pages, skipped N S))
  ∧ StronglySorted Z.lt (included N S)
  ∧ StronglySorted Z.lt (skipped N S)
  ∧ included N S ++ skipped N S ≡ₚ S
  ∧ (success = true →
     message = created_message valid_pages (skipped N S) N).
Proof.
  intros HS Hin H N.
  apply trim_pdf_try_Ok in H
    as (reader' & writer & invalid & Hin' & Hadd & Hcase).
  assert (reader' = reader) as -> by congruence.
  pose proof (add_pages_Ok _ _ _ _ _ _ _ _ _ Hadd) as (Hv & Hi & _).
  simpl in Hv, Hi. fold (included N S) in Hv. fold (skipped N S) in Hi.
  subst invalid. split; [done|]. split; [by exists writer|].
  split; [by apply filter_StronglySorted|].
  split; [by apply filter_StronglySorted|].
  split; [apply filter_app_complement|].
  intros ->. destruct Hcase as [(_ & ? & _)|(_ & _ & _ & _ & _ & ->)]; done.
Qed.

Lemma trim_pdf_partition_witness :
  StronglySorted Z.lt [0; 2; 4; 7]
  ∧ files sample_world !! "in.pdf" = Some (PdfFile five_pages)
  ∧ trim_pdf_try "in.pdf" [0; 2; 4; 7] "out.pdf" sample_world
    = (set_file "out.pdf" (PdfFile [Ok "b"; Ok "d"])
         (set_file "out.pdf" (NotPdf "Cannot read an empty file")
            sample_world),
       Ok (true, created_message [2; 4] [0; 7] 5, [2; 4]))
  ∧ [2; 4] = included 5 [0; 2; 4; 7]
  ∧ (∃ writer, add_pages five_pages 5 [0; 2; 4; 7] ([], [], [])
               = Ok (writer, [2; 4], skipped 5 [0; 2; 4; 7]))
  ∧ StronglySorted Z.lt (included 5 [0; 2; 4; 7])
  ∧ StronglySorted Z.lt (skipped 5 [0; 2; 4; 7])
  ∧ included 5 [0; 2; 4; 7] ++ skipped 5 [0; 2; 4; 7] ≡ₚ [0; 2; 4; 7]
  ∧ (true = true →
     created_message [2; 4] [0; 7] 5
     = created_message [2; 4] (skipped 5 [0; 2; 4; 7]) 5).
Proof.
  assert (StronglySorted Z.lt [0; 2; 4; 7]) as H1.
  { repeat constructor; lia. }
  assert (files sample_world !! "in.pdf" = Some (PdfFile five_pages)) as H2
    by reflexivity.
  assert (trim_pdf_try "in.pdf" [0; 2; 4; 7] "out.pdf" sample_world
          = (set_file "out.pdf" (PdfFile [Ok "b"; Ok "d"])
               (set_file "out.pdf" (NotPdf "Cannot read an empty file")
                  sample_world),
             Ok (true, created_message [2; 4] [0; 7] 5, [2; 4]))) as H3
    by reflexivity.
  split; [exact H1|]. split; [exact H2|]. split; [exact H3|].
  exact (trim_pdf_partition _ _ _ _ _ _ _ _ _ H1 H2 H3).
Defined.

(** C4: when the call succeeds, which it does only with a list of
    included pages that is not empty, the document at the destination
    holds exactly the source pages at the included positions, counted
    from 1, in the order of the list; and when the request is the full
    list from 1 to the page count, the document written is the source
    document, page for page. *)
Theorem trim_pdf_output {Page : Type} input S output
    (w w' : world Page) message valid_pages :
  trim_pdf input S output w = (w', (true, message, valid_pages)) →
  ∃ reader copied,
    files w !! input = Some (PdfFile reader)
    ∧ valid_pages = included (Z.of_nat (length reader)) S
    ∧ valid_pages ≠ []
    ∧ files w' !! output = Some (PdfFile (Ok <$> copied))
    ∧ Forall2 (λ p page, reader !! Z.to_nat (p - 1) = Some (Ok page))
              valid_pages copied
    ∧ (S = seqZ 1 (Z.of_nat (length reader)) → Ok <$> copied = reader).
Proof.
  intros H%trim_pdf_true.
  apply trim_pdf_try_Ok in H
    as (reader & writer & invalid & Hin & Hadd & Hcase).
  destruct Hcase as [(_ & ? & _)|(Hne & _ & _ & _ & -> & _)]; [done|].
  apply add_pages_Ok in Hadd as (Hv & _ & copied & Hw & HF).
  simpl in Hv, Hw. subst writer.
  fold (included (Z.of_nat (length reader)) S) in Hv, HF.
  rewrite <-Hv in HF.
  exists reader, copied. split; [done|]. split; [done|]. split; [done|].
  split; [apply lookup_insert_eq|]. split; [done|].
  intros ->. apply list_eq. intros i. rewrite list_lookup_fmap.
  pose proof (Forall2_length _ _ _ HF) as Hlen.
  assert (valid_pages = seqZ 1 (Z.of_nat (length reader))) as Hall.
  { rewrite Hv. unfold included. apply filter_holds.
    apply Forall_forall. intros p Hp%elem_of_seqZ. lia. }
  rewrite Hall in HF, Hlen. rewrite length_seqZ, Nat2Z.id in Hlen.
  destruct (decide (i < length reader)%nat) as [Hi|Hi].
  - destruct (Forall2_lookup_l _ _ _ i (1 + Z.of_nat i) HF)
      as (page & -> & Hpage).
    { apply lookup_seqZ. lia. }
    simpl. rewrite <-Hpage. f_equal. lia.
  - rewrite !lookup_ge_None_2 by lia. done.
Qed.

Lemma trim_pdf_output_witness :
  trim_pdf "in.pdf" [2; 4] "out.pdf" sample_world
  = (set_file "out.pdf" (PdfFile [Ok "b"; Ok "d"])
       (set_file "out.pdf" (NotPdf "Cannot read an empty file") sample_world),
     (true, "Successfully created PDF with 2 pages", [2; 4]))
  ∧ ∃ reader copied,
      files sample_world !! "in.pdf" = Some (PdfFile reader)
      ∧ [2; 4] = included (Z.of_nat (length reader)) [2; 4]
      ∧ [2; 4] ≠ []
      ∧ files (set_file "out.pdf" (PdfFile [Ok "b"; Ok "d"])
                 (set_file "out.pdf" (NotPdf "Cannot read an empty file")
                    sample_world)) !! "out.pdf"
        = Some (PdfFile (Ok <$> copied))
      ∧ Forall2 (λ p page, reader !! Z.to_nat (p - 1) = Some (Ok page))
                [2; 4] copied
      ∧ ([2; 4] = seqZ 1 (Z.of_nat (length reader)) → Ok <$> copied = reader).
Proof.
  assert (trim_pdf "in.pdf" [2; 4] "out.pdf" sample_world
          = (set_file "out.pdf" (PdfFile [Ok "b"; Ok "d"])
               (set_file "out.pdf" (NotPdf "Cannot read an empty file")
                  sample_world),
             (true, "Successfully created PDF with 2 pages", [2; 4]))) as H
    by reflexivity.
  split; [exact H|]. exact (trim_pdf_output _ _ _ _ _ _ _ H).
Defined.

(** Extracting every page of a document that loads, to a destination
    that can be written, succeeds and writes the source document. *)
Example extract_all_pages :
  trim_pdf "in.pdf" (seqZ 1 5) "out.pdf" sample_world
  = (set_file "out.pdf" (PdfFile five_pages)
       (set_file "out.pdf" (NotPdf "Cannot read an empty file") sample_world),
     (true, "Successfully created PDF with 5 pages", [1; 2; 3; 4; 5])).
Proof. reflexivity. Qed.

(** C5, as stated, fails: the returned tuple holds no list of skipped
    pages.  Two different requests without a page of the sample
    document return the same tuple, so nothing read off the tuple is
    the request. *)
Lemma skipped_pages_not_returned :
  trim_pdf "in.pdf" [100] "out.pdf" sample_world
  = trim_pdf "in.pdf" [0; 6; 7] "out.pdf" sample_world
  ∧ ¬ ∃ skippedPages : bool * string * list Z → list Z,
        ∀ S, Forall (λ p, ¬ 1 ≤ p ≤ 5) S →
             skippedPages (trim_pdf "in.pdf" S "out.pdf" sample_world).2 = S.
Proof.
  split; [reflexivity|]. intros [skippedPages H].
  assert (Forall (λ p, ¬ 1 ≤ p ≤ 5) [100]) as H1
    by (repeat constructor; lia).
  assert (Forall (λ p, ¬ 1 ≤ p ≤ 5) [0; 6; 7]) as H2
    by (repeat constructor; lia).
  apply H in H1, H2.
  change (trim_pdf "in.pdf" [0; 6; 7] "out.pdf" sample_world)
    with (trim_pdf "in.pdf" [100] "out.pdf" sample_world) in H2.
  congruence.
Qed.

(** C5, amended: when no requested number is within the bounds of the
    source document, the call raises nothing, returns the failure with
    the fixed message and the empty list, and leaves the file system as
    it was.  The loop's list of invalid pages is the whole request, but
    the tuple has no component for it: the tuple returned is the same
    for every such request. *)
Theorem trim_pdf_no_valid_pages {Page : Type} input S output
    (w : world Page) reader :
  files w !! input = Some (PdfFile reader) →
  Forall (λ p, ¬ 1 ≤ p ≤ Z.of_nat (length reader)) S →
  trim_pdf_try input S output w
    = (w, Ok (false, "No valid pages to include in the output PDF.", []))
  ∧ trim_pdf input S output w
    = (w, (false, "No valid pages to include in the output PDF.", []))
  ∧ add_pages reader (Z.of_nat (length reader)) S ([], [], [])
    = Ok ([], [], S)
  ∧ ∀ S', Forall (λ p, ¬ 1 ≤ p ≤ Z.of_nat (length reader)) S' →
          trim_pdf input S' output w = trim_pdf input S output w.
Proof.
  intros Hin HS.
  assert (∀ S', Forall (λ p, ¬ 1 ≤ p ≤ Z.of_nat (length reader)) S' →
    trim_pdf_try input S' output w
    = (w, Ok (false, "No valid pages to include in the output PDF.", [])))
    as Htry.
  { intros S' HS'.
    pose proof (add_pages_none reader _ S' [] [] [] HS') as Hadd.
    simpl in Hadd. unfold trim_pdf_try, bind, lift, PdfReader. rewrite Hin.
    cbv zeta. by rewrite Hadd. }
  split; [by apply Htry|]. split; [by rewrite trim_pdf_of_try, Htry|].
  split; [exact (add_pages_none reader _ S [] [] [] HS)|].
  intros S' HS'. by rewrite !trim_pdf_of_try, !Htry.
Qed.

Lemma trim_pdf_no_valid_pages_witness :
  files sample_world !! "in.pdf" = Some (PdfFile five_pages)
  ∧ Forall (λ p, ¬ 1 ≤ p ≤ Z.of_nat (length five_pages)) [100]
  ∧ trim_pdf_try "in.pdf" [100] "out.pdf" sample_world
    = (sample_world,
       Ok (false, "No valid pages to include in the output PDF.", []))
  ∧ trim_pdf "in.pdf" [100] "out.pdf" sample_world
    = (sample_world,
       (false, "No valid pages to include in the output PDF.", []))
  ∧ add_pages five_pages (Z.of_nat (length five_pages)) [100] ([], [], [])
    = Ok ([], [], [100])
  ∧ ∀ S', Forall (λ p, ¬ 1 ≤ p ≤ Z.of_nat (length five_pages)) S' →
          trim_pdf "in.pdf" S' "out.pdf" sample_world
          = trim_pdf "in.pdf" [100] "out.pdf" sample_world.
Proof.
  assert (files sample_world !! "in.pdf" = Some (PdfFile five_pages)) as H1
    by reflexivity.
  assert (Forall (λ p, ¬ 1 ≤ p ≤ Z.of_nat (length five_pages)) [100]) as H2.
  { repeat constructor. simpl. lia. }
  split; [exact H1|]. split; [exact H2|].
  exact (trim_pdf_no_valid_pages "in.pdf" [100] "out.pdf" _ _ H1 H2).
Defined.

(** C6, as stated, fails: pages 1 and 9 of a document of five pages are
    requested and the device is full; the call fails while the loop's
    list of invalid pages is not empty, it holds page 9, and nothing of
    it is returned. *)
Lemma invalid_pages_dropped_on_failure :
  (trim_pdf "in.pdf" [1; 9] "out.pdf" full_disk_world).2
  = (false, "Error processing PDF: [Errno 28] No space left on device", [])
  ∧ add_pages five_pages 5 [1; 9] ([], [], []) = Ok (["a"], [1], [9])
  ∧ [9] ≠ ([] : list Z).
Proof. by vm_compute. Qed.

(** C6, amended: whenever the body of the [try] raises, [trim_pdf]
    propagates nothing and returns the failure flag, the message made
    from the exception and the empty list; the tuple has no component
    for the skipped pages, and the loop's list of invalid pages, empty
    or not, is not reported.  The exception comes from reading the
    source, from loading a page to copy, from opening the destination
    or from writing it; in the first three cases the file system is as
    it was before the call, and in the last the destination holds what
    the interrupted write left of it. *)
Theorem trim_pdf_failure {Page : Type} input S output (w w' : world Page) e :
  trim_pdf_try input S output w = (w', Raise e) →
  trim_pdf input S output w
    = (w', (false, "Error processing PDF: " +:+ e, []))
  ∧ (PdfReader input w = (w, Raise e) ∧ w' = w
     ∨ ∃ reader,
         PdfReader input w = (w, Ok reader)
         ∧ (add_pages reader (Z.of_nat (length reader)) S ([], [], [])
              = Raise e ∧ w' = w
            ∨ ∃ writer valid_pages invalid_pages,
                add_pages reader (Z.of_nat (length reader)) S ([], [], [])
                  = Ok (writer, valid_pages, invalid_pages)
                ∧ valid_pages ≠ []
                ∧ (open_error w output = Some e ∧ w' = w
                   ∨ ∃ partial,
                       open_error w output = None
                       ∧ write_error w = Some (e, partial)
                       ∧ w' = set_file output partial
                                (set_file output
                                   (NotPdf "Cannot read an empty file") w)))).
Proof.
  intros H. split; [by rewrite trim_pdf_of_try, H|].
  revert H. unfold trim_pdf_try, bind, lift, ret.
  destruct (PdfReader input w) as [w1 [reader|e1]] eqn:ER.
  - pose proof (PdfReader_state _ _ _ _ ER) as ->.
    right. exists reader. split; [done|]. revert H.
    destruct (add_pages _ _ S _) as [[[writer valid] invalid]|e2] eqn:EA.
    + destruct valid as [|p valid]; [done|].
      unfold open_wb, write. intros H. right.
      exists writer, (p :: valid), invalid.
      split; [done|]. split; [done|].
      destruct (open_error w output) as [e3|] eqn:EO.
      * left. by injection H as <- <-.
      * right. simpl in H.
        destruct (write_error w) as [[e4 partial]|]; [|done].
        exists partial. by injection H as <- <-.
    + intros [= <- <-]. by left.
  - pose proof (PdfReader_state _ _ _ _ ER) as ->.
    intros [= <- <-]. by left.
Qed.

Lemma trim_pdf_failure_witness :
  trim_pdf_try "in.pdf" [1; 9] "out.pdf" full_disk_world
  = (set_file "out.pdf" (NotPdf "EOF marker not found")
       (set_file "out.pdf" (NotPdf "Cannot read an empty file")
          full_disk_world),
     Raise "[Errno 28] No space left on device")
  ∧ trim_pdf "in.pdf" [1; 9] "out.pdf" full_disk_world
    = (set_file "out.pdf" (NotPdf "EOF marker not found")
         (set_file "out.pdf" (NotPdf "Cannot read an empty file")
            full_disk_world),
       (false,
        "Error processing PDF: " +:+ "[Errno 28] No space left on device",
        []))
  ∧ (PdfReader "in.pdf" full_disk_world
       = (full_disk_world, Raise "[Errno 28] No space left on device")
     ∧ set_file "out.pdf" (NotPdf "EOF marker not found")
         (set_file "out.pdf" (NotPdf "Cannot read an empty file")
            full_disk_world)
       = full_disk_world
     ∨ ∃ reader,
         PdfReader "in.pdf" full_disk_world = (full_disk_world, Ok reader)
         ∧ (add_pages reader (Z.of_nat (length reader)) [1; 9] ([], [], [])
              = Raise "[Errno 28] No space left on device"
            ∧ set_file "out.pdf" (NotPdf "EOF marker not found")
                (set_file "out.pdf" (NotPdf "Cannot read an empty file")
                   full_disk_world)
              = full_disk_world
            ∨ ∃ writer valid_pages invalid_pages,
                add_pages reader (Z.of_nat (length reader)) [1; 9] ([], [], [])
                  = Ok (writer, valid_pages, invalid_pages)
                ∧ valid_pages ≠ []
                ∧ (open_error full_disk_world "out.pdf"
                     = Some "[Errno 28] No space left on device"
                   ∧ set_file "out.pdf" (NotPdf "EOF marker not found")
                       (set_file "out.pdf"
                          (NotPdf "Cannot read an empty file")
                          full_disk_world)
                     = full_disk_world
                   ∨ ∃ partial,
                       open_error full_disk_world "out.pdf" = None
                       ∧ write_error full_disk_world
                         = Some ("[Errno 28] No space left on device", partial)
                       ∧ set_file "out.pdf" (NotPdf "EOF marker not found")
                           (set_file "out.pdf"
                              (NotPdf "Cannot read an empty file")
                              full_disk_world)
                         = set_file "out.pdf" partial
                             (set_file "out.pdf"
                                (NotPdf "Cannot read an empty file")
                                full_disk_world)))).
Proof.
  assert (trim_pdf_try "in.pdf" [1; 9] "out.pdf" full_disk_world
          = (set_file "out.pdf" (NotPdf "EOF marker not found")
               (set_file "out.pdf" (NotPdf "Cannot read an empty file")
                  full_disk_world),
             Raise "[Errno 28] No space left on device")) as H
    by reflexivity.
  split; [exact H|]. exact (trim_pdf_failure _ _ _ _ _ _ H).
Defined.


(** * Further properties *)

(** ** The parser: tokens as a set *)

Module TokenFacts.
Import Str PyInt StrFacts PyIntFacts ParserFacts.

Lemma parse_parts_skip_empty parts pages :
  parse_parts (filter (λ t, t ≠ EmptyString) parts) pages
  = parse_parts parts pages.
Proof.
  revert pages. induction parts as [|part parts IH]; intros pages; [done|].
  rewrite filter_cons. destruct (decide (part ≠ EmptyString)) as [Hne|He].
  - simpl. destruct (parse_part part pages); simpl; [apply IH|done].
  - assert (part = EmptyString) as -> by (by destruct part; [|destruct He]).
    simpl. apply IH.
Qed.

Lemma parse_acceptable parts pages :
  Forall acceptable parts → ∃ pages', parse_parts parts pages = Ok pages'.
Proof.
  intros Hall.
  destruct (parse_parts parts pages) as [pages'|err] eqn:E; [by eexists|].
  apply parse_parts_Raise in E as (before & after & -> & _ & Hne & Hv).
  apply Forall_app in Hall as [_ Hall].
  apply Forall_cons in Hall as [Hacc _].
  destruct (acceptable_not_invalid _ Hacc Hne Hv).
Qed.

Lemma acceptable_empty : acceptable EmptyString.
Proof. by left. Qed.

End TokenFacts.

Import TokenFacts.

(** X1: the empty tokens of an expression do not matter: two
    expressions with the same tokens left, in the same order, once the
    empty ones are dropped, have the same outcome, list or exception. *)
Theorem parse_skips_empty_tokens page_input1 page_input2 :
  filter (λ t, t ≠ EmptyString) (parts_of page_input1)
  = filter (λ t, t ≠ EmptyString) (parts_of page_input2) →
  parse_page_ranges page_input1 = parse_page_ranges page_input2.
Proof.
  intros H. unfold parse_page_ranges.
  rewrite <-(parse_parts_skip_empty (parts_of page_input1)).
  rewrite <-(parse_parts_skip_empty (parts_of page_input2)).
  by rewrite H.
Qed.

Lemma parse_skips_empty_tokens_witness :
  filter (λ t, t ≠ EmptyString) (parts_of ",1-2,,x,")
  = filter (λ t, t ≠ EmptyString) (parts_of "1-2,x")
  ∧ parse_page_ranges ",1-2,,x," = parse_page_ranges "1-2,x".
Proof.
  assert (filter (λ t, t ≠ EmptyString) (parts_of ",1-2,,x,")
          = filter (λ t, t ≠ EmptyString) (parts_of "1-2,x")) as H
    by reflexivity.
  split; [exact H|]. exact (parse_skips_empty_tokens _ _ H).
Defined.

(** X2: the order of the tokens and their repetition do not matter:
    when an expression parses, every expression with the same set of
    tokens that are not empty parses to the same list. *)
Theorem parse_same_tokens page_input1 page_input2 pages :
  (∀ t, t ≠ EmptyString →
        t ∈ parts_of page_input1 ↔ t ∈ parts_of page_input2) →
  parse_page_ranges page_input1 = Ok pages →
  parse_page_ranges page_input2 = Ok pages.
Proof.
  intros Hsame. unfold parse_page_ranges.
  destruct (parse_parts (parts_of page_input1) ∅) as [set1|] eqn:E1; [|done].
  simpl. intros [= <-].
  apply parse_parts_Ok in E1 as [Hall1 Hin1].
  destruct (parse_acceptable (parts_of page_input2) ∅) as [set2 E2].
  { apply Forall_forall. intros t Ht.
    destruct (decide (t = EmptyString)) as [->|Hne]; [apply acceptable_empty|].
    rewrite Forall_forall in Hall1. by apply Hall1, Hsame. }
  rewrite E2. simpl. do 2 f_equal.
  apply parse_parts_Ok in E2 as [_ Hin2].
  apply set_eq. intros n. rewrite Hin1, Hin2.
  split; (intros [?|(t & Ht & Hd)]; [by left|right]; exists t; split; [|done]).
  - apply Hsame; [|done]. intros ->. by apply denotes_empty in Hd.
  - apply Hsame; [|done]. intros ->. by apply denotes_empty in Hd.
Qed.

Lemma parse_same_tokens_witness :
  (∀ t, t ≠ EmptyString → t ∈ parts_of "4,1-2,4" ↔ t ∈ parts_of "1-2,,4")
  ∧ parse_page_ranges "4,1-2,4" = Ok [1; 2; 4]
  ∧ parse_page_ranges "1-2,,4" = Ok [1; 2; 4].
Proof.
  assert (∀ t, t ≠ EmptyString →
               t ∈ parts_of "4,1-2,4" ↔ t ∈ parts_of "1-2,,4") as H1.
  { intros t Hne.
    change (parts_of "4,1-2,4") with ["4"; "1-2"; "4"].
    change (parts_of "1-2,,4") with ["1-2"; ""; "4"].
    rewrite !elem_of_cons, !elem_of_nil. naive_solver. }
  assert (parse_page_ranges "4,1-2,4" = Ok [1; 2; 4]) as H2 by reflexivity.
  split; [exact H1|]. split; [exact H2|].
  exact (parse_same_tokens _ _ _ H1 H2).
Defined.

(** ** The extractor: what a call leaves behind *)

Section ExtractorMore.

Context {Page : Type}.
Implicit Types (reader : list (result string Page)) (w : world Page).

(** The file system after a call is the one before it, or has the
    destination truncated and then written, in part or in full. *)
Lemma trim_pdf_try_world input S output w w' r :
  trim_pdf_try input S output w = (w', r) →
  w' = w
  ∨ ∃ f,
      w' = set_file output f
             (set_file output (NotPdf "Cannot read an empty file") w).
Proof.
  unfold trim_pdf_try, bind, lift, ret.
  destruct (PdfReader input w) as [w1 [reader|e]] eqn:ER;
    pose proof (PdfReader_state _ _ _ _ ER) as ->;
    [|intros [= <- <-]; by left].
  destruct (add_pages _ _ S _) as [[[writer valid] invalid]|e];
    [|intros [= <- <-]; by left].
  destruct valid as [|p valid]; [intros [= <- <-]; by left|].
  unfold open_wb, write.
  destruct (open_error w output); [intros [= <- <-]; by left|].
  simpl. destruct (write_error w) as [[e partial]|].
  - intros [= <- <-]. right. by eexists.
  - intros [= <- <-]. right. by eexists.
Qed.

Lemma trim_pdf_world input S output w :
  (trim_pdf input S output w).1
  = (trim_pdf_try input S output w).1.
Proof.
  rewrite trim_pdf_of_try.
  by destruct (trim_pdf_try input S output w) as [w' [r|e]].
Qed.

(** X3: a call touches no file but the destination: every other path,
    the source among them when it is not the destination, holds after
    the call what it held before, whatever the outcome. *)
Theorem trim_pdf_other_files input S output w path :
  path ≠ output →
  files (trim_pdf input S output w).1 !! path = files w !! path.
Proof.
  intros Hne. rewrite trim_pdf_world.
  destruct (trim_pdf_try input S output w) as [w' r] eqn:E.
  apply trim_pdf_try_world in E as [->|[f ->]]; simpl; [done|].
  by rewrite !lookup_insert_ne.
Qed.

(** X4: with a destination other than the source, running the same call
    again changes nothing: the second call returns what the first
    returned and leaves the file system as the first left it. *)
Theorem trim_pdf_again input S output w :
  input ≠ output →
  trim_pdf input S output (trim_pdf input S output w).1
  = trim_pdf input S output w.
Proof.
  intros Hne. unfold trim_pdf, trim_pdf_try, bind, lift, ret, PdfReader.
  destruct (files w !! input) as [[reader|e]|] eqn:Ein; simpl;
    rewrite ?Ein; [|done..].
  destruct (add_pages _ _ S _) as [[[writer valid] invalid]|e] eqn:Eadd;
    simpl; rewrite ?Ein; simpl; rewrite ?Eadd; [|done].
  destruct valid as [|p valid]; simpl; rewrite ?Ein; simpl; rewrite ?Eadd;
    [done|].
  unfold open_wb, write.
  destruct (open_error w output) as [e|] eqn:Eopen; simpl;
    rewrite ?Ein; simpl; rewrite ?Eadd, ?Eopen; [done|].
  destruct (write_error w) as [[e partial]|] eqn:Ewrite; simpl;
    rewrite ?lookup_insert_ne by done; rewrite ?Ein; simpl;
    rewrite ?Eadd; simpl; rewrite ?Eopen; simpl; rewrite ?Ewrite;
    unfold set_file; simpl; by rewrite !insert_insert_eq.
Qed.

End ExtractorMore.

Lemma trim_pdf_other_files_witness :
  "in.pdf" ≠ "out.pdf"
  ∧ files (trim_pdf "in.pdf" [2; 4] "out.pdf" sample_world).1 !! "in.pdf"
    = files sample_world !! "in.pdf".
Proof.
  assert ("in.pdf" ≠ "out.pdf") as H by discriminate.
  split; [exact H|].
  exact (trim_pdf_other_files "in.pdf" [2; 4] "out.pdf" sample_world _ H).
Defined.

Lemma trim_pdf_again_witness :
  "in.pdf" ≠ "out.pdf"
  ∧ trim_pdf "in.pdf" [2; 4] "out.pdf"
      (trim_pdf "in.pdf" [2; 4] "out.pdf" full_disk_world).1
    = trim_pdf "in.pdf" [2; 4] "out.pdf" full_disk_world.
Proof.
  assert ("in.pdf" ≠ "out.pdf") as H by discriminate.
  split; [exact H|].
  exact (trim_pdf_again "in.pdf" [2; 4] "out.pdf" full_disk_world H).
Defined.

Section ExtractorSuccess.

Context {Page : Type}.
Implicit Types (reader : list (result string Page)) (w : world Page).

Lemma prefix_append s r : String.prefix s (s +:+ r) = true.
Proof.
  induction s as [|a s IH]; simpl; [by destruct r|].
  by destruct (ascii_dec a a).
Qed.

Lemma prefix_refl s : String.prefix s s = true.
Proof.
  induction s as [|a s IH]; simpl; [done|].
  by destruct (ascii_dec a a).
Qed.

(** X5: a call reports success exactly when the source is a readable
    document, some requested number is within its bounds, every
    requested page within the bounds loads, and the destination can be
    opened and written. *)
Theorem trim_pdf_success_iff input S output w :
  (trim_pdf input S output w).2.1.1 = true
  ↔ ∃ reader,
      files w !! input = Some (PdfFile reader)
      ∧ included (Z.of_nat (length reader)) S ≠ []
      ∧ (∀ p, p ∈ S → 1 ≤ p ≤ Z.of_nat (length reader) →
              ∃ page, reader !! Z.to_nat (p - 1) = Some (Ok page))
      ∧ open_error w output = None
      ∧ write_error w = None.
Proof.
  split.
  - destruct (trim_pdf input S output w) as [w' [[b message] valid]] eqn:E.
    simpl. intros ->. apply trim_pdf_true, trim_pdf_try_Ok in E
      as (reader & writer & invalid & Hin & Hadd & Hcase).
    destruct Hcase as [(_ & ? & _)|(Hne & _ & Hopen & Hwrite & _)]; [done|].
    apply add_pages_Ok in Hadd as (Hv & _ & copied & _ & HF).
    simpl in Hv. fold (included (Z.of_nat (length reader)) S) in Hv, HF.
    exists reader. split; [done|]. split; [by rewrite <-Hv|].
    split; [|done]. intros p Hp Hrange.
    assert (p ∈ included (Z.of_nat (length reader)) S) as Hinc.
    { unfold included. by apply list_elem_of_filter. }
    apply list_elem_of_lookup in Hinc as [i Hi].
    destruct (Forall2_lookup_l _ _ _ _ _ HF Hi) as (page & _ & Hpage).
    by exists page.
  - intros (reader & Hin & Hne & Hload & Hopen & Hwrite).
    destruct (trim_pdf_succeeds input S output w reader)
      as (w' & message & ->); done.
Qed.

(** X6: the number that a success message announces is the number of
    pages of the document written, which is the number of pages
    returned. *)
Theorem trim_pdf_counts input S output w w' message valid_pages :
  trim_pdf input S output w = (w', (true, message, valid_pages)) →
  ∃ copied,
    files w' !! output = Some (PdfFile (Ok <$> copied))
    ∧ length copied = length valid_pages
    ∧ String.prefix
        ("Successfully created PDF with "
         +:+ Str.of_Z (Z.of_nat (length copied)) +:+ " pages")
        message = true.
Proof.
  intros H%trim_pdf_true.
  apply trim_pdf_try_Ok in H
    as (reader & writer & invalid & Hin & Hadd & Hcase).
  destruct Hcase as [(_ & ? & _)|(Hne & _ & _ & _ & -> & ->)]; [done|].
  apply add_pages_Ok in Hadd as (Hv & _ & copied & Hw & HF).
  simpl in Hv, Hw. subst writer. rewrite <-Hv in HF.
  apply Forall2_length in HF.
  exists copied. split; [apply lookup_insert_eq|]. split; [done|].
  unfold created_message. rewrite <-HF.
  destruct invalid; [apply prefix_refl|].
  set (head := "Successfully created PDF with " +:+ _ +:+ " pages").
  apply prefix_append.
Qed.

End ExtractorSuccess.

Lemma trim_pdf_counts_witness :
  trim_pdf "in.pdf" [0; 2; 4] "out.pdf" sample_world
  = (set_file "out.pdf" (PdfFile [Ok "b"; Ok "d"])
       (set_file "out.pdf" (NotPdf "Cannot read an empty file") sample_world),
     (true, created_message [2; 4] [0] 5, [2; 4]))
  ∧ ∃ copied,
      files (set_file "out.pdf" (PdfFile [Ok "b"; Ok "d"])
               (set_file "out.pdf" (NotPdf "Cannot read an empty file")
                  sample_world)) !! "out.pdf"
      = Some (PdfFile (Ok <$> copied))
      ∧ length copied = length [2; 4]
      ∧ String.prefix
          ("Successfully created PDF with "
           +:+ Str.of_Z (Z.of_nat (length copied)) +:+ " pages")
          (created_message [2; 4] [0] 5) = true.
Proof.
  assert (trim_pdf "in.pdf" [0; 2; 4] "out.pdf" sample_world
          = (set_file "out.pdf" (PdfFile [Ok "b"; Ok "d"])
               (set_file "out.pdf" (NotPdf "Cannot read an empty file")
                  sample_world),
             (true, created_message [2; 4] [0] 5, [2; 4]))) as H
    by reflexivity.
  split; [exact H|]. exact (trim_pdf_counts _ _ _ _ _ _ _ H).
Defined.

(** ** The window *)

Module GuiFacts.
Import Gui.

Lemma length_append s r :
  String.length (s +:+ r) = (String.length s + String.length r)%nat.
Proof. induction s as [|a s IH]; simpl; [done|]. by rewrite IH. Qed.

Lemma length_drop_chars n s :
  String.length (drop_chars n s) = (String.length s - n)%nat.
Proof.
  revert s. induction n as [|n IH]; intros s; simpl; [lia|].
  destruct s as [|a s]; simpl; [done|]. apply IH.
Qed.

Lemma drop_chars_suffix n s : ∃ front, s = front +:+ drop_chars n s.
Proof.
  revert s. induction n as [|n IH]; intros s; simpl; [by exists EmptyString|].
  destruct s as [|a s]; [by exists EmptyString|].
  destruct (IH s) as [front Hf]. exists (String a front).
  change (String a s = String a (front +:+ drop_chars n s)). by rewrite <-Hf.
Qed.

Lemma length_display_name name :
  (String.length (display_name name) ≤ 80)%nat.
Proof.
  unfold display_name.
  destruct (Nat.ltb_spec (String.length name) 80) as [H|H]; [lia|].
  rewrite length_append. unfold last_chars. rewrite length_drop_chars.
  simpl. lia.
Qed.

Section Window.

Context {Page : Type} (pf : platform).
Implicit Types (a : app) (w : world Page).

Lemma consistent_init : consistent init.
Proof. split; simpl; try done. repeat split; lia. Qed.

Lemma consistent_browse_input filename a w :
  consistent a → consistent (browse_input pf filename a w).
Proof.
  intros [Hin Hready Hout Hpages Hlabels]. unfold browse_input.
  destruct filename as [|c filename]; [done|].
  destruct (PdfReader _ w) as [w' [reader|e]].
  - unfold update_process_button. split; simpl.
    + by intros p [= <-].
    + by intros _ ?.
    + done.
    + repeat split; [lia|done].
    + split; apply length_display_name.
  - split; simpl; try done.
    + destruct Hlabels. split; [lia|done].
Qed.

Lemma consistent_browse_output filename a :
  consistent a → consistent (browse_output filename a).
Proof.
  intros [Hin Hready Hout Hpages Hlabels]. unfold browse_output.
  destruct filename as [|c filename]; [done|].
  unfold update_process_button. split; simpl; try done.
  - intros ->. done.
  - destruct Hlabels. split; [done|apply length_display_name].
Qed.

(** [process_pdf] writes to the status label and shows message boxes;
    it leaves the rest of the window as it is. *)
Lemma process_pdf_window page_entry overwrite a w :
  let a' := (process_pdf pf page_entry overwrite a w).1 in
  input_path a' = input_path a ∧ output_path a' = output_path a
  ∧ total_pages a' = total_pages a ∧ input_label a' = input_label a
  ∧ page_info_label a' = page_info_label a
  ∧ output_label a' = output_label a
  ∧ process_button a' = process_button a.
Proof.
  unfold process_pdf. destruct (strip page_entry); [done|].
  destruct (parse_page_ranges _) as [[|p ps]|err]; [done| |done].
  destruct (trim_pdf_paths _ _ _ _ _) as [w' [[[] message] valid]];
    destruct (must_confirm a w), overwrite; done.
Qed.

Lemma consistent_process_pdf page_entry overwrite a w :
  consistent a → consistent (process_pdf pf page_entry overwrite a w).1.
Proof.
  intros [Hin Hready Hout Hpages Hlabels].
  destruct (process_pdf_window page_entry overwrite a w)
    as (E1 & E2 & E3 & E4 & E5 & E6 & E7).
  split; rewrite ?E1, ?E2, ?E3, ?E4, ?E5, ?E6, ?E7; done.
Qed.

Lemma consistent_handle e a w :
  consistent a → consistent (handle pf e (a, w)).1.
Proof.
  intros H. destruct e as [filename|filename|page_entry overwrite]; simpl.
  - by apply consistent_browse_input.
  - by apply consistent_browse_output.
  - destruct (process_button a); [|done]. by apply consistent_process_pdf.
Qed.

Lemma consistent_run events (st : app * world Page) :
  consistent st.1 → consistent (run pf events st).1.
Proof.
  revert st. induction events as [|e events IH]; intros st H; [done|].
  change (run pf (e :: events) st) with (run pf events (handle pf e st)).
  apply IH. destruct st as [a w]. by apply consistent_handle.
Qed.

End Window.

End GuiFacts.

Import Gui GuiFacts.

(** X7: the name shown for a path is the path itself when it has fewer
    than 80 characters, and otherwise three dots followed by its last
    77 characters; it never has more than 80 characters. *)
Theorem display_name_spec name :
  String.length (display_name name) = Nat.min (String.length name) 80
  ∧ ((String.length name < 80)%nat → display_name name = name)
  ∧ ((80 ≤ String.length name)%nat →
     ∃ front kept,
       name = front +:+ kept ∧ String.length kept = 77%nat
       ∧ display_name name = "..." +:+ kept).
Proof.
  unfold display_name.
  destruct (Nat.ltb_spec (String.length name) 80) as [H|H].
  - split; [lia|]. split; [done|lia].
  - assert (String.length (last_chars 77 name) = 77%nat) as Hlen.
    { unfold last_chars. rewrite length_drop_chars. lia. }
    split; [rewrite length_append, Hlen; simpl; lia|]. split; [lia|].
    intros _. destruct (drop_chars_suffix (String.length name - 77) name)
      as [front Hf].
    by exists front, (last_chars 77 name).
Qed.

(** X8: whatever the user does from the start of the program, the
    process button is enabled whenever an input and an output are both
    selected, it is never enabled without an output, and a selected
    input is never the empty path. *)
Theorem window_button {Page : Type} pf events (w : world Page) :
  let a := (run pf events (init, w)).1 in
  (truthy (input_path a) = true → truthy (output_path a) = true →
   process_button a = true)
  ∧ (process_button a = true → truthy (output_path a) = true)
  ∧ (∀ p, input_path a = Some p → p ≠ EmptyString).
Proof.
  destruct (consistent_run pf events (init, w) consistent_init)
    as [Hin Hready Hout _ _]. done.
Qed.

(** X9: whatever the user does from the start of the program, the page
    count of the window is that of the selected input and zero without
    one, the label under the input shows it, and the labels of the
    input and of the output never hold more than 80 characters. *)
Theorem window_labels {Page : Type} pf events (w : world Page) :
  let a := (run pf events (init, w)).1 in
  0 ≤ total_pages a
  ∧ (input_path a = None → total_pages a = 0)
  ∧ text (page_info_label a)
    = match input_path a with
      | Some _ => "Total pages: " +:+ Str.of_Z (total_pages a)
      | None => ""
      end
  ∧ (String.length (text (input_label a)) ≤ 80)%nat
  ∧ (String.length (text (output_label a)) ≤ 80)%nat.
Proof.
  destruct (consistent_run pf events (init, w) consistent_init)
    as [_ _ _ (H1 & H2 & H3) (H4 & H5)]. done.
Qed.

Section Processing.

Context {Page : Type} (pf : platform).
Implicit Types (a : app) (w : world Page).

Lemma trim_pdf_paths_Some input S output w :
  trim_pdf_paths pf (Some input) S (Some output) w
  = trim_pdf input S output w.
Proof. reflexivity. Qed.

Lemma trim_pdf_paths_no_input S output w :
  trim_pdf_paths pf None S output w
  = (w, (false, "Error processing PDF: " +:+ reader_none_error pf, [])).
Proof. reflexivity. Qed.

Lemma trim_pdf_paths_true input S output w w' message valid_pages :
  trim_pdf_paths pf input S output w = (w', (true, message, valid_pages)) →
  ∃ i o, input = Some i ∧ output = Some o
         ∧ trim_pdf i S o w = (w', (true, message, valid_pages)).
Proof.
  destruct input as [i|]; [|done].
  destruct output as [o|]; [intros H; by exists i, o|].
  unfold trim_pdf_paths, trim_pdf_try_paths, bind, lift, ret.
  destruct (PdfReader i w) as [w1 [reader|e]]; [|done].
  destruct (add_pages _ _ S _) as [[[writer valid] invalid]|e]; [|done].
  by destruct valid.
Qed.

Lemma must_confirm_true a w o :
  output_path a = Some o → o ≠ EmptyString → is_Some (files w !! o) →
  must_confirm a w = true.
Proof.
  intros Ho Hne Hex. unfold must_confirm, path_exists. rewrite Ho.
  destruct o; [done|]. simpl. by apply bool_decide_eq_true.
Qed.

Lemma must_confirm_inv a w :
  must_confirm a w = true →
  ∃ o, output_path a = Some o ∧ o ≠ EmptyString ∧ is_Some (files w !! o).
Proof.
  unfold must_confirm, path_exists.
  destruct (output_path a) as [o|]; [|done].
  intros [H1 H2%bool_decide_eq_true]%andb_prop.
  exists o. split; [done|]. split; [by destruct o|done].
Qed.

(** X10: [process_pdf] stops before [trim_pdf] with one message box,
    and leaves the file system and the status label as they were, when
    the entry is blank, when it does not parse, when it parses to no
    page at all, and when the destination exists and the user does not
    confirm that it may be overwritten. *)
Theorem process_pdf_refuses page_entry overwrite a w :
  strip page_entry = EmptyString
  ∨ (∃ e, parse_page_ranges (strip page_entry) = Raise e)
  ∨ parse_page_ranges (strip page_entry) = Ok []
  ∨ ((∃ o, output_path a = Some o ∧ o ≠ EmptyString
           ∧ is_Some (files w !! o))
     ∧ overwrite = false) →
  ∃ title body,
    process_pdf pf page_entry overwrite a w
    = (show (Warning title body) a, w)
    ∨ process_pdf pf page_entry overwrite a w
      = (show (Question title body) a, w).
Proof.
  intros H. unfold process_pdf.
  destruct (strip page_entry) as [|c s] eqn:Es.
  { eexists _, _. by left. }
  destruct (parse_page_ranges (String c s)) as [[|p ps]|err] eqn:Ep.
  { eexists _, _. by left. }
  2:{ eexists _, _. by left. }
  destruct H as [?|[[e ?]|[?|[(o & Ho & Hne & Hex) ->]]]]; [done..|].
  rewrite (must_confirm_true a w o Ho Hne Hex). simpl.
  eexists _, _. by right.
Qed.

(** Every run of [process_pdf] ends with a message box, and the box of
    a success is shown only after [trim_pdf] returned a success. *)
Lemma process_pdf_Information page_entry overwrite a w a' w' message :
  process_pdf pf page_entry overwrite a w = (a', w') →
  last (dialogs a') = Some (Information "Success" message) →
  ∃ S valid_pages,
    parse_page_ranges (strip page_entry) = Ok S
    ∧ (must_confirm a w = true → overwrite = true)
    ∧ trim_pdf_paths pf (input_path a) S (output_path a) w
      = (w', (true, message, valid_pages))
    ∧ status_label a'
      = Label ("Success! Saved to: " +:+ str_path (output_path a))
              "color: #4caf50;".
Proof.
  unfold process_pdf.
  destruct (strip page_entry) as [|c s] eqn:Es.
  { intros [= <- <-]. simpl. by rewrite last_snoc. }
  destruct (parse_page_ranges (String c s)) as [[|p ps]|err] eqn:Ep.
  { intros [= <- <-]. simpl. by rewrite last_snoc. }
  2:{ intros [= <- <-]. simpl. by rewrite last_snoc. }
  destruct (trim_pdf_paths _ _ _ _ _) as [w1 [[b m] v]] eqn:Et.
  destruct (must_confirm a w) eqn:Ec, overwrite, b; simpl;
    intros [= <- <-]; simpl; rewrite last_snoc; intros [= <-];
    exists (p :: ps), v; done.
Qed.

(** X11: when [process_pdf] ends with the message box of a success,
    the entry, stripped, parsed to a list of pages; an input and an
    output were selected and the input was a readable document; an
    existing destination was confirmed; and the destination now holds,
    once each and in ascending order, exactly the pages of the input
    whose numbers some token of the entry stands for. *)
Theorem process_pdf_success page_entry overwrite a w a' w' message :
  process_pdf pf page_entry overwrite a w = (a', w') →
  last (dialogs a') = Some (Information "Success" message) →
  ∃ i o reader copied pages,
    input_path a = Some i ∧ output_path a = Some o
    ∧ files w !! i = Some (PdfFile reader)
    ∧ (is_Some (files w !! o) → o ≠ EmptyString → overwrite = true)
    ∧ files w' !! o = Some (PdfFile (Ok <$> copied))
    ∧ StronglySorted Z.lt pages ∧ pages ≠ []
    ∧ (∀ n, n ∈ pages
            ↔ 1 ≤ n ≤ Z.of_nat (length reader)
              ∧ ∃ part, part ∈ parts_of (strip page_entry)
                        ∧ denotes part n)
    ∧ Forall2 (λ p page, reader !! Z.to_nat (p - 1) = Some (Ok page))
              pages copied
    ∧ text (status_label a') = "Success! Saved to: " +:+ o.
Proof.
  intros H Hlast.
  destruct (process_pdf_Information _ _ _ _ _ _ _ H Hlast)
    as (S & valid & Hparse & Hconf & Htrim & Hstatus).
  apply trim_pdf_paths_true in Htrim as (i & o & Hi & Ho & Htrim).
  apply trim_pdf_true, trim_pdf_try_Ok in Htrim
    as (reader & writer & invalid & Hin & Hadd & Hcase).
  destruct Hcase as [(_ & ? & _)|(Hne & _ & _ & _ & -> & _)]; [done|].
  apply add_pages_Ok in Hadd as (Hv & _ & copied & Hw & HF).
  simpl in Hv, Hw. subst writer. rewrite <-Hv in HF.
  apply ParserFacts.parse_page_ranges_Ok in Hparse as (_ & Hsorted & Hmem).
  exists i, o, reader, copied, valid.
  split; [done|]. split; [done|]. split; [done|]. split.
  { intros Hex Hne'. apply Hconf. by eapply must_confirm_true. }
  split; [apply lookup_insert_eq|].
  split; [rewrite Hv; by apply filter_StronglySorted|].
  split; [done|]. split.
  { intros n. rewrite Hv, list_elem_of_filter, Hmem. done. }
  split; [done|]. rewrite Hstatus, Ho. done.
Qed.

(** X12: when the file picked as input cannot be read, the input is
    deselected while the output and the state of the process button
    stay as they were; a click on the button, if it is enabled, then
    writes nothing and does not end with the message box of a
    success. *)
Theorem failed_load_keeps_button filename a w e page_entry overwrite :
  filename ≠ EmptyString →
  PdfReader filename w = (w, Raise e) →
  let a1 := browse_input pf filename a w in
  input_path a1 = None ∧ output_path a1 = output_path a
  ∧ process_button a1 = process_button a
  ∧ (process_pdf pf page_entry overwrite a1 w).2 = w
  ∧ ∀ message,
      last (dialogs (process_pdf pf page_entry overwrite a1 w).1)
      ≠ Some (Information "Success" message).
Proof.
  intros Hne Hread a1.
  assert (input_path a1 = None ∧ output_path a1 = output_path a
          ∧ process_button a1 = process_button a) as (H1 & H2 & H3).
  { unfold a1, browse_input. destruct filename; [done|]. by rewrite Hread. }
  split; [done|]. split; [done|]. split; [done|].
  destruct (process_pdf pf page_entry overwrite a1 w) as [a' w'] eqn:E.
  simpl. split.
  - revert E. unfold process_pdf.
    destruct (strip page_entry); [by intros [= <- <-]|].
    destruct (parse_page_ranges _) as [[|p ps]|err];
      [by intros [= <- <-]| |by intros [= <- <-]].
    rewrite H1, trim_pdf_paths_no_input.
    by destruct (must_confirm a1 w), overwrite; intros [= <- <-].
  - intros message Hlast.
    destruct (process_pdf_Information _ _ _ _ _ _ _ E Hlast)
      as (S & valid & _ & _ & Htrim & _).
    by rewrite H1, trim_pdf_paths_no_input in Htrim.
Qed.

End Processing.

Lemma process_pdf_refuses_witness :
  (strip " " = EmptyString
   ∨ (∃ e, parse_page_ranges (strip " ") = Raise e)
   ∨ parse_page_ranges (strip " ") = Ok []
   ∨ ((∃ o, output_path init = Some o ∧ o ≠ EmptyString
            ∧ is_Some (files sample_world !! o))
      ∧ true = false))
  ∧ ∃ title body,
      process_pdf sample_platform " " true init sample_world
      = (show (Warning title body) init, sample_world)
      ∨ process_pdf sample_platform " " true init sample_world
        = (show (Question title body) init, sample_world).
Proof.
  assert (strip " " = EmptyString
          ∨ (∃ e, parse_page_ranges (strip " ") = Raise e)
          ∨ parse_page_ranges (strip " ") = Ok []
          ∨ ((∃ o, output_path init = Some o ∧ o ≠ EmptyString
                   ∧ is_Some (files sample_world !! o))
             ∧ true = false)) as H by (left; reflexivity).
  split; [exact H|].
  exact (process_pdf_refuses sample_platform " " true init sample_world H).
Defined.


Lemma process_pdf_success_witness :
  process_pdf sample_platform " 4,2 " true loaded_window sample_world
  = ((process_pdf sample_platform " 4,2 " true loaded_window sample_world).1,
     (process_pdf sample_platform " 4,2 " true loaded_window sample_world).2)
  ∧ last (dialogs
            (process_pdf sample_platform " 4,2 " true loaded_window
               sample_world).1)
    = Some (Information "Success" "Successfully created PDF with 2 pages")
  ∧ ∃ i o reader copied pages,
      input_path loaded_window = Some i ∧ output_path loaded_window = Some o
      ∧ files sample_world !! i = Some (PdfFile reader)
      ∧ (is_Some (files sample_world !! o) → o ≠ EmptyString → true = true)
      ∧ files (process_pdf sample_platform " 4,2 " true loaded_window
                 sample_world).2 !! o
        = Some (PdfFile (Ok <$> copied))
      ∧ StronglySorted Z.lt pages ∧ pages ≠ []
      ∧ (∀ n, n ∈ pages
              ↔ 1 ≤ n ≤ Z.of_nat (length reader)
                ∧ ∃ part, part ∈ parts_of (strip " 4,2 ")
                          ∧ denotes part n)
      ∧ Forall2 (λ p page, reader !! Z.to_nat (p - 1) = Some (Ok page))
                pages copied
      ∧ text (status_label
                (process_pdf sample_platform " 4,2 " true loaded_window
                   sample_world).1)
        = "Success! Saved to: " +:+ o.
Proof.
  assert (process_pdf sample_platform " 4,2 " true loaded_window sample_world
          = ((process_pdf sample_platform " 4,2 " true loaded_window
                sample_world).1,
             (process_pdf sample_platform " 4,2 " true loaded_window
                sample_world).2)) as H1 by reflexivity.
  assert (last (dialogs
                  (process_pdf sample_platform " 4,2 " true loaded_window
                     sample_world).1)
          = Some (Information "Success"
                    "Successfully created PDF with 2 pages")) as H2
    by reflexivity.
  split; [exact H1|]. split; [exact H2|].
  exact (process_pdf_success sample_platform _ _ _ _ _ _ _ H1 H2).
Defined.

Lemma failed_load_keeps_button_witness :
  "gone.pdf" ≠ EmptyString
  ∧ PdfReader "gone.pdf" sample_world
    = (sample_world,
       Raise "[Errno 2] No such file or directory: 'gone.pdf'")
  ∧ let a1 := browse_input sample_platform "gone.pdf" loaded_window
                sample_world in
    input_path a1 = None ∧ output_path a1 = output_path loaded_window
    ∧ process_button a1 = process_button loaded_window
    ∧ (process_pdf sample_platform "1" true a1 sample_world).2 = sample_world
    ∧ ∀ message,
        last (dialogs (process_pdf sample_platform "1" true a1 sample_world).1)
        ≠ Some (Information "Success" message).
Proof.
  assert ("gone.pdf" ≠ EmptyString) as H1 by discriminate.
  assert (PdfReader "gone.pdf" sample_world
          = (sample_world,
             Raise "[Errno 2] No such file or directory: 'gone.pdf'")) as H2
    by reflexivity.
  split; [exact H1|]. split; [exact H2|].
  exact (failed_load_keeps_button sample_platform "gone.pdf" loaded_window
           sample_world _ "1" true H1 H2).
Defined.

(** The sample window is ready, and its button is still enabled after a
    failed load. *)
Example button_enabled_without_input :
  process_button loaded_window = true
  ∧ process_button
      (browse_input sample_platform "gone.pdf" loaded_window sample_world)
    = true
  ∧ input_path
      (browse_input sample_platform "gone.pdf" loaded_window sample_world)
    = None.
Proof. by vm_compute. Qed.

(** ** Entries without a page *)

Lemma split_only_separators sep s :
  Str.remove sep s = EmptyString →
  Forall (λ t, t = EmptyString) (Str.split sep s).
Proof.
  induction s as [|c s IH]; simpl; [by repeat constructor|].
  destruct (Ascii.eqb c sep); [|done].
  intros H. constructor; [done|by apply IH].
Qed.

Lemma parse_parts_all_empty parts pages :
  Forall (λ t, t = EmptyString) parts → parse_parts parts pages = Ok pages.
Proof.
  induction 1 as [|part parts -> _ IH]; [done|]. simpl. apply IH.
Qed.

(** X13: an expression made of commas and spaces only parses to the
    empty list: it is not an error. *)
Theorem parse_only_separators page_input :
  Str.remove Str.comma (Str.remove Str.space page_input) = EmptyString →
  parse_page_ranges page_input = Ok [].
Proof.
  intros H. unfold parse_page_ranges, parts_of.
  rewrite parse_parts_all_empty by by apply split_only_separators.
  simpl. unfold sorted. by rewrite elements_empty.
Qed.

Lemma parse_only_separators_witness :
  Str.remove Str.comma (Str.remove Str.space " , ,, ") = EmptyString
  ∧ parse_page_ranges " , ,, " = Ok [].
Proof.
  assert (Str.remove Str.comma (Str.remove Str.space " , ,, ")
          = EmptyString) as H by reflexivity.
  split; [exact H|]. exact (parse_only_separators _ H).
Defined.

(** ** The files that the window writes *)

Section ProcessingFiles.

Context {Page : Type} (pf : platform).
Implicit Types (a : app) (w : world Page).

Lemma trim_pdf_paths_world input S output w path :
  output ≠ Some path →
  files (trim_pdf_paths pf input S output w).1 !! path = files w !! path.
Proof.
  intros Hne. destruct input as [i|]; [|done].
  destruct output as [o|].
  - rewrite trim_pdf_paths_Some, trim_pdf_world.
    assert (path ≠ o) as Hpo by congruence.
    destruct (trim_pdf_try i S o w) as [w' r] eqn:E.
    apply trim_pdf_try_world in E as [->|[f ->]]; simpl; [done|].
    by rewrite !lookup_insert_ne.
  - unfold trim_pdf_paths, trim_pdf_try_paths, bind, lift, ret.
    destruct (PdfReader i w) as [w1 [reader|e]] eqn:ER;
      pose proof (PdfReader_state _ _ _ _ ER) as ->; [|done].
    destruct (add_pages _ _ S _) as [[[writer valid] invalid]|e]; [|done].
    by destruct valid.
Qed.

(** X14: [process_pdf] writes to no file but the selected output:
    every other path holds after it what it held before, whatever the
    entry, the answer and the outcome. *)
Theorem process_pdf_other_files page_entry overwrite a w path :
  output_path a ≠ Some path →
  files (process_pdf pf page_entry overwrite a w).2 !! path
  = files w !! path.
Proof.
  intros Hne. unfold process_pdf.
  destruct (strip page_entry); [done|].
  destruct (parse_page_ranges _) as [[|p ps]|err]; [done| |done].
  pose proof (trim_pdf_paths_world (input_path a) (p :: ps) (output_path a)
                w path Hne) as Hw.
  destruct (trim_pdf_paths _ _ _ _ _) as [w' [[[] message] valid]];
    by destruct (must_confirm a w), overwrite.
Qed.

End ProcessingFiles.

Lemma process_pdf_other_files_witness :
  output_path loaded_window ≠ Some "in.pdf"
  ∧ files (process_pdf sample_platform "1-3" true loaded_window
             sample_world).2 !! "in.pdf"
    = files sample_world !! "in.pdf".
Proof.
  assert (output_path loaded_window ≠ Some "in.pdf") as H by discriminate.
  split; [exact H|].
  exact (process_pdf_other_files sample_platform "1-3" true loaded_window
           sample_world "in.pdf" H).
Defined.
